(** * SCORM 1.2 session wrapper and course-progress store

    A shallow embedding of [src/lib/scorm.ts] (class [ScormWrapper]) and of
    the [useCourseProgress] hook, followed by the properties the
    specification states about them.

    Conventions of the embedding.
    - A JavaScript [number] that is computed by division ([overallProgress])
      or merely stored ([quizScore]) is an IEEE binary64 value: Rocq's
      primitive [float].  Lesson identifiers and [currentLesson] are the
      integers of the data model, kept in [Z]; the operations the source
      applies to them ([===], [<], [+ 1], [- 1]) are exact on integers of
      magnitude below 2^53.
    - The LMS runtime behind [window.API] is an object with hidden state:
      a record of functions over a state type [R].  Every request sent to
      it is appended to a log, so that "no runtime call" and "commit before
      finish" are statements about that log.
    - [this.api], [this.initialized] and [this.finishOnUnload] are fields of
      one mutable singleton; the methods are computations in a state monad
      over the page (wrapper fields, runtime state, logs).
    - The React state updater passed to [setProgress] is a function from the
      previous [CourseProgress] to the next one; the calls it makes on the
      outside world ([scorm.setComplete()], [console.log]) are returned as a
      list of effects and interpreted against the wrapper separately.  The
      updater is applied once per call.  Snapshot persistence through
      [useEffect] is not part of the embedding, except for the read that
      builds the initial state. *)

From Stdlib Require Import ZArith List String Bool Lia Floats Uint63.
From stdpp Require Import gmap strings list.

#[local] Open Scope Z_scope.

(** ** JavaScript primitives used by the source *)

Module Js.

(** The double that represents the integer [z]; exact for [|z| < 2^53]
    (array lengths and lesson counts are far below). *)
Definition number_of_Z (z : Z) : float :=
  if z <? 0 then PrimFloat.opp (PrimFloat.of_uint63 (Uint63.of_Z (- z)))
  else PrimFloat.of_uint63 (Uint63.of_Z z).

Definition number_of_nat (n : nat) : float := number_of_Z (Z.of_nat n).

(** [Math.round]: the integral double nearest to [x], ties towards +∞;
    NaN, the infinities, both zeros and integral values are returned as
    they are; a result of zero keeps the sign of [x].  A finite double is
    [± m * 2^e] with [e >= -1074], so [x * 2^1074] is an integer and the
    rounding is computed exactly, as [floor (x + 1/2)] over the integers. *)
Definition Math_round (x : float) : float :=
  match Prim2SF x with
  | S754_finite s m e =>
      if 0 <=? e then x
      else
        let scaled := (if s then -1 else 1) * Z.pos m * 2 ^ (e + 1074) in
        let r := (2 * scaled + 2 ^ 1074) / 2 ^ 1075 in
        if r =? 0 then (if s then (-0)%float else 0%float) else number_of_Z r
  | _ => x
  end.

(** Truthiness of a string: every string but the empty one. *)
Definition truthy (s : string) : bool := negb (String.eqb s ""%string).

End Js.

(** ** The SCORM wrapper ([class ScormWrapper]) *)

Module Scorm.

(** *** Discovery of the runtime handle *)

(** A call of the source either returns a value or, when the recursion is
    cut after a given number of nested calls, has not returned yet. *)
Inductive outcome (A : Type) :=
| Returned (a : A)
| Unfinished.
Arguments Returned {A} a.
Arguments Unfinished {A}.

Section Discovery.
Variable Api : Type.          (* the objects found in [window.API] *)

(** Windows are objects that refer to each other; a hierarchy maps each
    reference to the three properties [findAPI] reads.  A property that is
    [null] or [undefined] is [None].  References are compared by identity
    ([win.parent !== win]). *)
Definition WindowRef := nat.

Record Window := {
  API : option Api;
  parent : option WindowRef;
  opener : option WindowRef
}.

Definition Windows := WindowRef -> Window.

Definition maxAttempts : nat := 500.

(** The guard of the [while] loop: the window to move to when the loop
    goes round once more. *)
Definition climb_guard (ws : Windows) (win : WindowRef) (attempts : nat)
    : option WindowRef :=
  match API (ws win), parent (ws win) with
  | None, Some p =>
      if negb (p =? win)%nat && (attempts <? maxAttempts)%nat
      then Some p else None
  | _, _ => None
  end.

(** At most [fuel] iterations of the loop, from [win] with [attempts]
    hops already made; returns the window and the counter at the exit. *)
Fixpoint climb (ws : Windows) (fuel : nat) (win : WindowRef) (attempts : nat)
    : WindowRef * nat :=
  match fuel with
  | O => (win, attempts)
  | S fuel' =>
      match climb_guard ws win attempts with
      | Some p => climb ws fuel' p (S attempts)
      | None => (win, attempts)
      end
  end.

(** [findAPI(win)], with at most [depth] nested calls of itself.  The
    loop gets [maxAttempts] iterations, which it never exhausts with its
    guard still true (lemma [climb_exits]). *)
Fixpoint findAPI (ws : Windows) (depth : nat) (win : WindowRef)
    : outcome (option Api) :=
  match depth with
  | O => Unfinished
  | S depth' =>
      let win' := fst (climb ws maxAttempts win 0) in
      match API (ws win') with
      | Some a => Returned (Some a)
      | None =>
          match opener (ws win') with
          | Some o => findAPI ws depth' o
          | None => Returned None
          end
      end
  end.

(** The constructor: the value assigned to [this.api]. *)
Definition ScormWrapper_constructor (ws : Windows) (depth : nat)
    (window : WindowRef) : outcome (option Api) :=
  match findAPI ws depth window with
  | Unfinished => Unfinished
  | Returned (Some a) => Returned (Some a)
  | Returned None =>
      match opener (ws window) with
      | Some o => findAPI ws depth o
      | None => Returned None
      end
  end.

End Discovery.

Arguments API {Api} w.
Arguments parent {Api} w.
Arguments opener {Api} w.
Arguments Build_Window {Api} API parent opener.
Arguments climb_guard {Api} ws win attempts.
Arguments climb {Api} ws fuel win attempts.
Arguments findAPI {Api} ws depth win.
Arguments ScormWrapper_constructor {Api} ws depth window.

(** *** The session *)

Section Session.
Variable R : Type.            (* the state of the LMS runtime *)

(** [type ScormAPI]: each method answers with a string and may change the
    runtime. *)
Record ScormAPI := {
  LMSInitialize : string -> R -> string * R;
  LMSFinish : string -> R -> string * R;
  LMSGetValue : string -> R -> string * R;
  LMSSetValue : string -> string -> R -> string * R;
  LMSCommit : string -> R -> string * R;
  LMSGetLastError : R -> string * R;
  LMSGetErrorString : string -> R -> string * R;
  LMSGetDiagnostic : string -> R -> string * R
}.

(** A request sent to the runtime. *)
Inductive Call :=
| CallInitialize (param : string)
| CallFinish (param : string)
| CallGetValue (element : string)
| CallSetValue (element value : string)
| CallCommit (param : string)
| CallGetLastError.

(** The page: the fields of the singleton, the runtime it talks to, and
    what has been observed from outside. *)
Record Page := {
  api : option ScormAPI;
  initialized : bool;
  finishOnUnload : bool;
  lms : R;
  calls : list Call;            (* requests sent so far, oldest first *)
  listeners : list string;      (* window.addEventListener(type, ...) *)
  console : list string         (* console.warn / console.log *)
}.

(** The field initialisers and the constructor's assignment. *)
Definition new_ScormWrapper (found : option ScormAPI) (runtime : R) : Page :=
  {| api := found; initialized := false; finishOnUnload := true;
     lms := runtime; calls := []; listeners := []; console := [] |}.

Definition M (A : Type) : Type := Page -> A * Page.

Definition ret {A} (a : A) : M A := fun w => (a, w).

Definition bind {A B} (m : M A) (k : A -> M B) : M B := fun w =>
  let (a, w') := m w in k a w'.

Declare Scope page_scope.
Notation "x ← y ; z" := (bind y (fun x => z))
  (at level 20, y at level 100, z at level 200, only parsing) : page_scope.
Notation "x ;; z" := (bind x (fun _ => z))
  (at level 100, z at level 200, only parsing, right associativity)
  : page_scope.
#[local] Open Scope page_scope.

Definition get {A} (field : Page -> A) : M A := fun w => (field w, w).

Definition when (b : bool) (m : M unit) : M unit := if b then m else ret tt.

Definition set_initialized (b : bool) : M unit := fun w =>
  (tt, {| api := api w; initialized := b; finishOnUnload := finishOnUnload w;
          lms := lms w; calls := calls w; listeners := listeners w;
          console := console w |}).

Definition addEventListener (type : string) : M unit := fun w =>
  (tt, {| api := api w; initialized := initialized w;
          finishOnUnload := finishOnUnload w; lms := lms w; calls := calls w;
          listeners := listeners w ++ [type]; console := console w |}).

Definition console_print (msg : string) : M unit := fun w =>
  (tt, {| api := api w; initialized := initialized w;
          finishOnUnload := finishOnUnload w; lms := lms w; calls := calls w;
          listeners := listeners w; console := console w ++ [msg] |}).

(** One request: the runtime answers and moves on, the log grows. *)
Definition request (c : Call) (method : R -> string * R) : M string := fun w =>
  let (result, runtime) := method (lms w) in
  (result,
   {| api := api w; initialized := initialized w;
      finishOnUnload := finishOnUnload w; lms := runtime;
      calls := calls w ++ [c]; listeners := listeners w;
      console := console w |}).

(** [if (!this.initialized || !this.api) return default;] followed by a
    body that uses [this.api]. *)
Definition unless_inactive {A} (default : A) (body : ScormAPI -> M A) : M A :=
  fun w =>
    if negb (initialized w) then (default, w)
    else match api w with
         | None => (default, w)
         | Some a => body a w
         end.

Definition is_true (result : string) : bool := String.eqb result "true".

Definition commit : M bool :=
  unless_inactive false (fun a =>
    result ← request (CallCommit "") (LMSCommit a "");
    ret (is_true result)).

Definition getValue (element : string) : M string :=
  unless_inactive ""%string (fun a =>
    request (CallGetValue element) (LMSGetValue a element)).

Definition setValue (element value : string) : M bool :=
  unless_inactive false (fun a =>
    result ← request (CallSetValue element value) (LMSSetValue a element value);
    ret (is_true result)).

Definition terminate : M bool :=
  unless_inactive false (fun a =>
    commit ;;
    result ← request (CallFinish "") (LMSFinish a "");
    set_initialized false ;;
    ret (is_true result)).

Definition initialize : M bool :=
  already ← get initialized;
  if already then ret true
  else
    found ← get api;
    match found with
    | None =>
        console_print "SCORM API not found - running in standalone mode" ;;
        ret false
    | Some a =>
        result ← request (CallInitialize "") (LMSInitialize a "");
        set_initialized (is_true result) ;;
        now_initialized ← get initialized;
        on_unload ← get finishOnUnload;
        when (now_initialized && on_unload)
             (addEventListener "beforeunload" ;; addEventListener "unload") ;;
        get initialized
    end.

Definition getLastError : M string :=
  found ← get api;
  match found with
  | None => ret ""%string
  | Some a => request CallGetLastError (LMSGetLastError a)
  end.

Inductive LessonStatus :=
| passed | status_completed | failed | incomplete | browsed | not_attempted.

Definition status_text (s : LessonStatus) : string :=
  match s with
  | passed => "passed"
  | status_completed => "completed"
  | failed => "failed"
  | incomplete => "incomplete"
  | browsed => "browsed"
  | not_attempted => "not attempted"
  end.

Definition setLessonStatus (status : LessonStatus) : M bool :=
  setValue "cmi.core.lesson_status" (status_text status).

Definition getLessonStatus : M string := getValue "cmi.core.lesson_status".

Definition setComplete : M bool :=
  success ← setLessonStatus status_completed;
  commit ;;
  ret success.

Definition getLearnerName : M string := getValue "cmi.core.student_name".
Definition getLearnerId : M string := getValue "cmi.core.student_id".

Definition isConnected (w : Page) : bool :=
  match api w with Some _ => initialized w | None => false end.

(** [export const scorm = new ScormWrapper();] in the window [window] of
    the hierarchy [ws], beside a runtime in state [runtime]. *)
Definition scorm (ws : Windows ScormAPI) (depth : nat) (window : WindowRef)
    (runtime : R) : outcome Page :=
  match ScormWrapper_constructor ws depth window with
  | Returned found => Returned (new_ScormWrapper found runtime)
  | Unfinished => Unfinished
  end.

End Session.

Arguments LMSInitialize {R} s param runtime.
Arguments LMSFinish {R} s param runtime.
Arguments LMSGetValue {R} s element runtime.
Arguments LMSSetValue {R} s element value runtime.
Arguments LMSCommit {R} s param runtime.
Arguments LMSGetLastError {R} s runtime.
Arguments api {R} p.
Arguments initialized {R} p.
Arguments finishOnUnload {R} p.
Arguments lms {R} p.
Arguments calls {R} p.
Arguments listeners {R} p.
Arguments console {R} p.
Arguments new_ScormWrapper {R} found runtime.
Arguments ret {R A} a.
Arguments bind {R A B} m k.
Arguments request {R} c method.
Arguments commit {R}.
Arguments getValue {R} element.
Arguments setValue {R} element value.
Arguments terminate {R}.
Arguments initialize {R}.
Arguments getLastError {R}.
Arguments setLessonStatus {R} status.
Arguments getLessonStatus {R}.
Arguments setComplete {R}.
Arguments getLearnerName {R}.
Arguments getLearnerId {R}.
Arguments isConnected {R} w.
Arguments scorm {R} ws depth window runtime.
Arguments console_print {R} msg.

End Scorm.

(** ** The progress store ([useCourseProgress]) *)

Module Progress.
Import Js.

Record LessonProgress := {
  lessonId : Z;
  completed : bool;
  quizScore : option float
}.

Record CourseProgress := {
  currentLesson : Z;
  lessons : list LessonProgress;
  overallProgress : float
}.

Definition STORAGE_KEY : string := "stoneridge-course-progress".
Definition TOTAL_LESSONS : Z := 7.

(** [Array.from({ length: TOTAL_LESSONS }, (_, i) => ...)] *)
Definition initialProgress : CourseProgress := {|
  currentLesson := 1;
  lessons := map (fun i : nat =>
                    {| lessonId := Z.of_nat i + 1;
                       completed := false;
                       quizScore := None |})
                 (seq 0 (Z.to_nat TOTAL_LESSONS));
  overallProgress := 0%float
|}.

(** What a state updater does to the world outside the store. *)
Inductive Effect :=
| ScormSetComplete                (* scorm.setComplete() *)
| ConsoleLog (msg : string).      (* console.log(msg) *)

Definition completion_message : string :=
  "🎓 Course completed - SCORM status set to complete".

Definition completedCount (ls : list LessonProgress) : nat :=
  length (List.filter completed ls).

(** The updater of [completeLesson(lessonId, quizScore?)], applied to the
    previous state.  [{ ...l, completed: true, quizScore }] keeps
    [lessonId] and overwrites the other two fields, also when [quizScore]
    is [undefined].  [id + 1] is the source's binary64 sum for
    [-2^53 <= id <= 2^53 - 1]; beyond that range the source rounds, and the
    properties of [currentLesson] below are stated within it. *)
Definition completeLesson (id : Z) (score : option float)
    (prev : CourseProgress) : CourseProgress * list Effect :=
  let newLessons :=
    map (fun l => if lessonId l =? id
                  then {| lessonId := lessonId l;
                          completed := true;
                          quizScore := score |}
                  else l)
        (lessons prev) in
  let count := completedCount newLessons in
  let progress :=
    Math_round (PrimFloat.mul
                  (PrimFloat.div (number_of_nat count)
                                 (number_of_nat (length newLessons)))
                  100%float) in
  let effects :=
    if Z.of_nat count =? TOTAL_LESSONS
    then [ScormSetComplete; ConsoleLog completion_message]
    else [] in
  ({| currentLesson := if id <? TOTAL_LESSONS then id + 1 else id;
      lessons := newLessons;
      overallProgress := progress |},
   effects).

Definition setCurrentLesson (id : Z) (prev : CourseProgress) : CourseProgress :=
  {| currentLesson := id;
     lessons := lessons prev;
     overallProgress := overallProgress prev |}.

(** [setProgress(initialProgress)] *)
Definition resetProgress (prev : CourseProgress) : CourseProgress :=
  initialProgress.

(** [previousLesson?.completed ?? false].  [id - 1] is the source's
    binary64 difference for [-2^53 + 1 <= id <= 2^53]; the properties that
    depend on it are stated within that range. *)
Definition isLessonAccessible (progress : CourseProgress) (id : Z) : bool :=
  if id =? 1 then true
  else match List.find (fun l => lessonId l =? id - 1) (lessons progress) with
       | Some previousLesson => completed previousLesson
       | None => false
       end.

(** The lazy initialiser of [useState].  [JSON.parse] belongs to the
    platform: it is a parameter, returning [None] where the real one throws
    [SyntaxError]; its result is used as a [CourseProgress] without any
    validation, as the source does. *)
Section Load.
Variable JSON_parse : string -> option CourseProgress.

Definition loadProgress (localStorage : gmap string string) : CourseProgress :=
  match localStorage !! STORAGE_KEY with
  | Some saved =>
      if truthy saved
      then match JSON_parse saved with
           | Some snapshot => snapshot
           | None => initialProgress
           end
      else initialProgress
  | None => initialProgress
  end.
End Load.

(** The states the store can be in when it starts from the canonical
    initial state and is driven through its three mutators with lesson
    identifiers of the course. *)
Inductive reachable : CourseProgress -> Prop :=
| reach_initial : reachable initialProgress
| reach_completeLesson p id score :
    reachable p -> 1 <= id <= TOTAL_LESSONS ->
    reachable (fst (completeLesson id score p))
| reach_setCurrentLesson p id :
    reachable p -> 1 <= id <= TOTAL_LESSONS ->
    reachable (setCurrentLesson id p)
| reach_resetProgress p :
    reachable p -> reachable (resetProgress p).

(** [round (100 * c / n)] over the integers: [floor (100 c / n + 1/2)]. *)
Definition round_percent (c n : Z) : Z := (2 * (100 * c) + n) / (2 * n).

(** The number of completion reports among the calls of an updater. *)
Definition is_report (e : Effect) : bool :=
  match e with ScormSetComplete => true | ConsoleLog _ => false end.

Definition reports (es : list Effect) : nat := length (List.filter is_report es).

(** Every lesson of the state is completed. *)
Definition all_completed (p : CourseProgress) : bool :=
  forallb completed (lessons p).

End Progress.

(** ** The store wired to the singleton wrapper *)

Module Hook.
Import Progress.

Section Wired.
Variable R : Type.

Definition perform (e : Effect) : Scorm.M R unit :=
  match e with
  | ScormSetComplete => Scorm.bind Scorm.setComplete (fun _ => Scorm.ret tt)
  | ConsoleLog msg => Scorm.console_print msg
  end.

Fixpoint perform_all (es : list Effect) : Scorm.M R unit :=
  match es with
  | [] => Scorm.ret tt
  | e :: es' => Scorm.bind (perform e) (fun _ => perform_all es')
  end.

(** [completeLesson] as the page sees it: the next state, and the page
    after the updater's calls. *)
Definition completeLesson (id : Z) (score : option float)
    (prev : CourseProgress) : Scorm.M R CourseProgress :=
  let (next, effects) := Progress.completeLesson id score prev in
  Scorm.bind (perform_all effects) (fun _ => Scorm.ret next).

End Wired.

Arguments perform {R} e.
Arguments perform_all {R} es.
Arguments completeLesson {R} id score prev.

End Hook.

(** ** Sample data: store states, storages, runtimes and window hierarchies *)

Module Samples.
Import Progress.

(** The first lesson done, from a fresh store. *)
Definition after_first_lesson : CourseProgress :=
  fst (completeLesson 1 (Some 80%float) initialProgress).

(** Lessons 1 to 7 completed in order, the first with a quiz score. *)
Definition completed_course : CourseProgress :=
  fold_left (fun p id => fst (completeLesson id None p))
            [2; 3; 4; 5; 6; 7] after_first_lesson.

(** Lessons 1 to 6 completed. *)
Definition before_last_lesson : CourseProgress :=
  fold_left (fun p id => fst (completeLesson id None p))
            [2; 3; 4; 5; 6] after_first_lesson.

(** A stand-in for [JSON.parse]: it knows one text, which stands for the
    serialised [after_first_lesson], and rejects everything else. *)
Definition snapshot_text : string := "<snapshot after the first lesson>".

Definition parse_one (text : string) : option CourseProgress :=
  if String.eqb text snapshot_text then Some after_first_lesson else None.

Definition storage_with_snapshot : gmap string string :=
  {[ STORAGE_KEY := snapshot_text ]}.

Definition storage_with_garbage : gmap string string :=
  {[ STORAGE_KEY := "{not json"%string ]}.

(** A runtime that stores what it is given and accepts every request. *)
Definition friendly_api : Scorm.ScormAPI (gmap string string) := {|
  Scorm.LMSInitialize := fun _ r => ("true"%string, r);
  Scorm.LMSFinish := fun _ r => ("true"%string, r);
  Scorm.LMSGetValue := fun element r => (default ""%string (r !! element), r);
  Scorm.LMSSetValue := fun element value r => ("true"%string, <[element := value]> r);
  Scorm.LMSCommit := fun _ r => ("true"%string, r);
  Scorm.LMSGetLastError := fun r => ("0"%string, r);
  Scorm.LMSGetErrorString := fun _ r => ("No error"%string, r);
  Scorm.LMSGetDiagnostic := fun _ r => (""%string, r)
|}.

(** The same runtime, except that it refuses to finish. *)
Definition stubborn_api : Scorm.ScormAPI (gmap string string) := {|
  Scorm.LMSInitialize := Scorm.LMSInitialize friendly_api;
  Scorm.LMSFinish := fun _ r => ("false"%string, r);
  Scorm.LMSGetValue := Scorm.LMSGetValue friendly_api;
  Scorm.LMSSetValue := Scorm.LMSSetValue friendly_api;
  Scorm.LMSCommit := Scorm.LMSCommit friendly_api;
  Scorm.LMSGetLastError := Scorm.LMSGetLastError friendly_api;
  Scorm.LMSGetErrorString := Scorm.LMSGetErrorString _ friendly_api;
  Scorm.LMSGetDiagnostic := Scorm.LMSGetDiagnostic _ friendly_api
|}.

Definition learner_record : gmap string string :=
  {[ "cmi.core.student_name"%string := "Doe, Jane"%string ]}.

(** No runtime found: preview outside an LMS. *)
Definition standalone_page : Scorm.Page (gmap string string) :=
  Scorm.new_ScormWrapper None learner_record.

(** A runtime found, [initialize()] not called yet. *)
Definition fresh_page : Scorm.Page (gmap string string) :=
  Scorm.new_ScormWrapper (Some friendly_api) learner_record.

Definition active_page : Scorm.Page (gmap string string) :=
  snd (Scorm.initialize fresh_page).

Definition terminated_page : Scorm.Page (gmap string string) :=
  snd (Scorm.terminate active_page).

Definition stubborn_active_page : Scorm.Page (gmap string string) :=
  snd (Scorm.initialize (Scorm.new_ScormWrapper (Some stubborn_api) learner_record)).

(** Window hierarchies.  The API object is only handed around by
    [findAPI], so a name stands for it. *)

(** The course in a frame (window 0) of a frame (1) of the LMS page (2),
    which carries the API and is its own parent. *)
Definition framed_course : Scorm.Windows string := fun w =>
  match w with
  | 0%nat => {| Scorm.API := None; Scorm.parent := Some 1%nat; Scorm.opener := None |}
  | 1%nat => {| Scorm.API := None; Scorm.parent := Some 2%nat; Scorm.opener := None |}
  | _ => {| Scorm.API := Some "LMS API"%string; Scorm.parent := Some w;
            Scorm.opener := None |}
  end.

(** The course in a pop-up (window 0) opened by a frame (1) of the LMS
    page (2). *)
Definition popup_course : Scorm.Windows string := fun w =>
  match w with
  | 0%nat => {| Scorm.API := None; Scorm.parent := Some 0%nat;
                Scorm.opener := Some 1%nat |}
  | 1%nat => {| Scorm.API := None; Scorm.parent := Some 2%nat; Scorm.opener := None |}
  | _ => {| Scorm.API := Some "LMS API"%string; Scorm.parent := Some w;
            Scorm.opener := None |}
  end.

(** Two top-level windows without an API, each the opener of the other:
    window 0 opened window 1, which then targeted window 0 by name with
    [window.open], making itself the opener of window 0. *)
Definition opener_cycle : Scorm.Windows string := fun w =>
  {| Scorm.API := None;
     Scorm.parent := Some w;
     Scorm.opener := Some (if (w =? 0)%nat then 1%nat else 0%nat) |}.

(** A chain of frames without end and without an API: window [w] has
    parent [w + 1]. *)
Definition endless_frames : Scorm.Windows string := fun w =>
  {| Scorm.API := None; Scorm.parent := Some (S w); Scorm.opener := None |}.

End Samples.

(** ** Driving the wrapper: sequences of calls of its public methods *)

Module Operations.
Import Scorm.

Inductive Operation :=
| Initialize
| Terminate
| GetValue (element : string)
| SetValue (element value : string)
| Commit
| GetLastError
| SetLessonStatus (status : LessonStatus)
| GetLessonStatus
| SetComplete
| GetLearnerName
| GetLearnerId.

(** The page after one call, the returned value dropped. *)
Definition after {R : Type} (op : Operation) (w : Page R) : Page R :=
  match op with
  | Initialize => snd (initialize w)
  | Terminate => snd (terminate w)
  | GetValue element => snd (getValue element w)
  | SetValue element value => snd (setValue element value w)
  | Commit => snd (commit w)
  | GetLastError => snd (getLastError w)
  | SetLessonStatus status => snd (setLessonStatus status w)
  | GetLessonStatus => snd (getLessonStatus w)
  | SetComplete => snd (setComplete w)
  | GetLearnerName => snd (getLearnerName w)
  | GetLearnerId => snd (getLearnerId w)
  end.

(** The page after a sequence of calls, first call first. *)
Definition after_all {R : Type} (ops : list Operation) (w : Page R) : Page R :=
  fold_left (fun page op => after op page) ops w.

(** What every call keeps: the handle, the [finishOnUnload] flag, and the
    fact that an initialised wrapper has a handle. *)
Definition session_ok {R : Type} (found : option (ScormAPI R)) (w : Page R)
    : Prop :=
  api w = found /\ finishOnUnload w = true
  /\ (initialized w = true -> found <> None).

(** Windows that [findAPI] can step to: up to the parent, across to the
    opener. *)
Inductive linked {Api : Type} (ws : Windows Api) : WindowRef -> WindowRef -> Prop :=
| linked_here w : linked ws w w
| linked_parent w p w' :
    parent (ws w) = Some p -> linked ws p w' -> linked ws w w'
| linked_opener w o w' :
    opener (ws w) = Some o -> linked ws o w' -> linked ws w w'.

End Operations.

(** ** The snapshot in [localStorage] *)

Module Persistence.
Import Progress.

(** The body of the persisting effect:
    [localStorage.setItem(STORAGE_KEY, JSON.stringify(progress))].
    [JSON.stringify] belongs to the platform and is a parameter. *)
Definition persist (JSON_stringify : CourseProgress -> string)
    (progress : CourseProgress) (localStorage : gmap string string)
    : gmap string string :=
  <[STORAGE_KEY := JSON_stringify progress]> localStorage.

(** [localStorage.removeItem(STORAGE_KEY)], the second statement of
    [resetProgress]. *)
Definition removeSnapshot (localStorage : gmap string string)
    : gmap string string :=
  delete STORAGE_KEY localStorage.

End Persistence.

(** ** More sample data *)

Module MoreSamples.
Import Progress Samples.

(** The LMS page is window 501; every window below it is a frame of the
    next one. *)
Definition deep_frames : Scorm.Windows string := fun w =>
  if (w =? 501)%nat
  then {| Scorm.API := Some "LMS API"%string; Scorm.parent := Some w;
          Scorm.opener := None |}
  else {| Scorm.API := None; Scorm.parent := Some (S w); Scorm.opener := None |}.

(** Distance from the LMS page in [popup_course]. *)
Definition popup_rank (w : Scorm.WindowRef) : nat :=
  match w with
  | 0%nat => 2%nat
  | 1%nat => 1%nat
  | _ => 0%nat
  end.

(** A stand-in for [JSON.stringify], the counterpart of [parse_one]. *)
Definition stringify_one (p : CourseProgress) : string := snapshot_text.

(** A snapshot in which two lessons carry the identifier 1, the first one
    incomplete and the second one completed. *)
Definition duplicated_lesson : CourseProgress :=
  {| currentLesson := 1;
     lessons := [ {| lessonId := 1; completed := false; quizScore := None |};
                  {| lessonId := 1; completed := true; quizScore := None |} ];
     overallProgress := 50%float |}.

(** A snapshot that holds no lesson at all. *)
Definition empty_course : CourseProgress :=
  {| currentLesson := 1; lessons := []; overallProgress := 0%float |}.

(** A snapshot of a course of eight lessons, seven of them completed. *)
Definition eight_lessons : CourseProgress :=
  {| currentLesson := 8;
     lessons := map (fun i : nat =>
                       {| lessonId := Z.of_nat i + 1;
                          completed := (i <? 7)%nat;
                          quizScore := None |})
                    (seq 0 8);
     overallProgress := 88%float |}.

(** A runtime that accepts the handshake but rejects every write and
    commit. *)
Definition readonly_api : Scorm.ScormAPI (gmap string string) := {|
  Scorm.LMSInitialize := fun _ r => ("true"%string, r);
  Scorm.LMSFinish := fun _ r => ("true"%string, r);
  Scorm.LMSGetValue := fun element r => (default ""%string (r !! element), r);
  Scorm.LMSSetValue := fun _ _ r => ("false"%string, r);
  Scorm.LMSCommit := fun _ r => ("false"%string, r);
  Scorm.LMSGetLastError := fun r => ("403"%string, r);
  Scorm.LMSGetErrorString := fun _ r => ("Element is read only"%string, r);
  Scorm.LMSGetDiagnostic := fun _ r => (""%string, r)
|}.

(** A runtime that rejects the handshake. *)
Definition closed_api : Scorm.ScormAPI (gmap string string) := {|
  Scorm.LMSInitialize := fun _ r => ("false"%string, r);
  Scorm.LMSFinish := fun _ r => ("false"%string, r);
  Scorm.LMSGetValue := fun _ r => (""%string, r);
  Scorm.LMSSetValue := fun _ _ r => ("false"%string, r);
  Scorm.LMSCommit := fun _ r => ("false"%string, r);
  Scorm.LMSGetLastError := fun r => ("101"%string, r);
  Scorm.LMSGetErrorString := fun _ r => ("General exception"%string, r);
  Scorm.LMSGetDiagnostic := fun _ r => (""%string, r)
|}.

Definition closed_page : Scorm.Page (gmap string string) :=
  Scorm.new_ScormWrapper (Some closed_api) learner_record.

Definition readonly_active_page : Scorm.Page (gmap string string) :=
  snd (Scorm.initialize (Scorm.new_ScormWrapper (Some readonly_api) learner_record)).

End MoreSamples.

(** * The rounding primitive on known values *)

Module JsFacts.
Import Js.

(** Ties go up, also below zero; the largest double below one half goes
    down although adding one half to it in double arithmetic gives 1;
    integral values, NaN and the infinities come back unchanged. *)
Example Math_round_values :
  map Math_round
      [2.5%float; 2.4375%float; (-2.5)%float; (-2.75)%float; 0.25%float;
       (-0.25)%float; 0x1.fffffffffffffp-2%float; 100%float;
       0x1p+80%float; infinity; nan]
  = [3%float; 2%float; (-2)%float; (-3)%float; 0%float;
     (-0)%float; 0%float; 100%float;
     0x1p+80%float; infinity; nan].
Proof. vm_compute. reflexivity. Qed.

Example number_of_Z_values :
  map number_of_Z [0; 7; 100; -3] = [0%float; 7%float; 100%float; (-3)%float].
Proof. vm_compute. reflexivity. Qed.

End JsFacts.

(** * Properties of the progress store *)

Module ProgressFacts.
Import Js Progress Samples.

(** The code run on the specification's scenario. *)
Example first_lesson_scenario :
  after_first_lesson =
  {| currentLesson := 2;
     lessons := [ {| lessonId := 1; completed := true; quizScore := Some 80%float |};
                  {| lessonId := 2; completed := false; quizScore := None |};
                  {| lessonId := 3; completed := false; quizScore := None |};
                  {| lessonId := 4; completed := false; quizScore := None |};
                  {| lessonId := 5; completed := false; quizScore := None |};
                  {| lessonId := 6; completed := false; quizScore := None |};
                  {| lessonId := 7; completed := false; quizScore := None |} ];
     overallProgress := 14%float |}.
Proof. vm_compute. reflexivity. Qed.

Example completed_course_scenario :
  completed_course =
  {| currentLesson := 7;
     lessons := [ {| lessonId := 1; completed := true; quizScore := Some 80%float |};
                  {| lessonId := 2; completed := true; quizScore := None |};
                  {| lessonId := 3; completed := true; quizScore := None |};
                  {| lessonId := 4; completed := true; quizScore := None |};
                  {| lessonId := 5; completed := true; quizScore := None |};
                  {| lessonId := 6; completed := true; quizScore := None |};
                  {| lessonId := 7; completed := true; quizScore := None |} ];
     overallProgress := 100%float |}.
Proof. vm_compute. reflexivity. Qed.

(** The double computation is not the exact one in general: with 200
    lessons of which 29 are completed, [29 / 200 * 100] is
    14.499999999999998 and rounds to 14, where the exact quotient 14.5
    rounds to 15. *)
Example double_rounding_differs :
  Math_round (PrimFloat.mul (PrimFloat.div (number_of_nat 29) (number_of_nat 200))
                            100%float) = 14%float
  /\ round_percent 29 200 = 15.
Proof. split; vm_compute; reflexivity. Qed.

(** [round_percent] is a nearest integer to [100 c / n]. *)
Lemma round_percent_nearest c n :
  0 < n -> 2 * Z.abs (n * round_percent c n - 100 * c) <= n.
Proof.
  intros Hn. unfold round_percent.
  pose proof (Z.div_mod (2 * (100 * c) + n) (2 * n) ltac:(lia)) as Hdm.
  pose proof (Z.mod_pos_bound (2 * (100 * c) + n) (2 * n) ltac:(lia)) as Hb.
  lia.
Qed.

(** With seven lessons the double computation and the exact rounding
    agree, whatever the number of completed lessons. *)
Lemma Math_round_seven (c : nat) :
  (c <= 7)%nat ->
  Math_round (PrimFloat.mul (PrimFloat.div (number_of_nat c) (number_of_nat 7))
                            100%float)
  = number_of_Z (round_percent (Z.of_nat c) TOTAL_LESSONS).
Proof.
  intros Hc.
  do 8 (destruct c as [|c]; [vm_compute; reflexivity|]).
  lia.
Qed.

Lemma completedCount_le ls : (completedCount ls <= length ls)%nat.
Proof. apply List.filter_length_le. Qed.

Lemma completedCount_all ls :
  completedCount ls = length ls <-> forallb completed ls = true.
Proof.
  unfold completedCount. induction ls as [|l ls IH]; simpl.
  - tauto.
  - pose proof (List.filter_length_le completed ls) as Hle.
    destruct (completed l); simpl.
    + rewrite <- IH. lia.
    + split; [lia | discriminate].
Qed.

Lemma completeLesson_length id score p :
  length (lessons (fst (completeLesson id score p))) = length (lessons p).
Proof. simpl. apply length_map. Qed.

Lemma reachable_length p :
  reachable p -> length (lessons p) = Z.to_nat TOTAL_LESSONS.
Proof.
  induction 1 as [|p id score _ IH _|p id _ IH _|p _ _].
  - reflexivity.
  - now rewrite completeLesson_length.
  - exact IH.
  - reflexivity.
Qed.

(** What [completeLesson] stores in [overallProgress] when the store holds
    seven lessons. *)
Lemma completeLesson_overallProgress id score p :
  length (lessons p) = Z.to_nat TOTAL_LESSONS ->
  let next := fst (completeLesson id score p) in
  overallProgress next
  = number_of_Z (round_percent (Z.of_nat (completedCount (lessons next)))
                               TOTAL_LESSONS).
Proof.
  intros Hlen next.
  pose proof (completedCount_le (lessons next)) as Hle.
  pose proof (completeLesson_length id score p) as Hlen'. fold next in Hlen'.
  rewrite Hlen in Hlen'. rewrite Hlen' in Hle.
  rewrite <- (Math_round_seven _ Hle).
  subst next. unfold completeLesson at 1. cbn [fst overallProgress].
  now rewrite length_map, Hlen.
Qed.

(** C1.  In every state reachable from the canonical initial state through
    [completeLesson], [setCurrentLesson] and [resetProgress] with lesson
    identifiers in 1..7, [overallProgress] is the double that represents
    [round (100 * completedCount / 7)], where [completedCount] is the number
    of lessons whose [completed] flag is set. *)
Theorem overallProgress_invariant (p : CourseProgress) :
  reachable p ->
  overallProgress p
  = number_of_Z (round_percent (Z.of_nat (completedCount (lessons p)))
                               TOTAL_LESSONS).
Proof.
  induction 1 as [|p id score Hp _ _|p id _ IH _|p _ _].
  - vm_compute. reflexivity.
  - apply completeLesson_overallProgress. now apply reachable_length.
  - exact IH.
  - vm_compute. reflexivity.
Qed.

Lemma overallProgress_invariant_witness :
  overallProgress after_first_lesson
  = number_of_Z (round_percent
                   (Z.of_nat (completedCount (lessons after_first_lesson)))
                   TOTAL_LESSONS).
Proof.
  apply (overallProgress_invariant after_first_lesson).
  apply reach_completeLesson; [apply reach_initial | unfold TOTAL_LESSONS; lia].
Defined.

(** C2, as stated, fails: on a fresh store, whose current lesson is 1,
    [completeLesson(7)] moves the current lesson to 7. *)
Lemma completeLesson_last_moves_currentLesson :
  currentLesson initialProgress = 1
  /\ currentLesson (fst (completeLesson 7 None initialProgress)) = 7
  /\ currentLesson (fst (completeLesson 7 None initialProgress))
     <> currentLesson initialProgress.
Proof. repeat split. discriminate. Qed.

(** C2, amended.  In every state, [completeLesson(k)] with [1 <= k < 7]
    sets [currentLesson] to [k + 1]; [completeLesson(7)] sets it to 7,
    which is its previous value exactly when the current lesson already
    was 7. *)
Theorem completeLesson_currentLesson (p : CourseProgress) (score : option float) :
  (forall k, 1 <= k < TOTAL_LESSONS ->
     currentLesson (fst (completeLesson k score p)) = k + 1)
  /\ currentLesson (fst (completeLesson TOTAL_LESSONS score p)) = TOTAL_LESSONS
  /\ (currentLesson (fst (completeLesson TOTAL_LESSONS score p)) = currentLesson p
      <-> currentLesson p = TOTAL_LESSONS).
Proof.
  repeat split.
  - intros k Hk. cbn [completeLesson fst currentLesson].
    destruct (Z.ltb_spec k TOTAL_LESSONS); [reflexivity | lia].
  - cbn [completeLesson fst currentLesson] in *. simpl in *. congruence.
  - cbn [completeLesson fst currentLesson]. simpl. congruence.
Qed.

(** The updater reports exactly when the new count is [TOTAL_LESSONS]. *)
Lemma completeLesson_reports id score p :
  reports (snd (completeLesson id score p))
  = if Z.of_nat (completedCount (lessons (fst (completeLesson id score p))))
       =? TOTAL_LESSONS
    then 1%nat else 0%nat.
Proof.
  cbn [completeLesson fst snd lessons].
  now destruct (Z.of_nat _ =? TOTAL_LESSONS).
Qed.

(** C3.  On a store of seven lessons, a [completeLesson] call whose
    resulting state has every lesson completed makes exactly one
    [scorm.setComplete()] call, and a call whose resulting state still has
    an incomplete lesson makes none.  (This holds whether or not a lesson
    was incomplete before the call.) *)
Theorem completeLesson_reports_completion
    (p : CourseProgress) (id : Z) (score : option float) :
  length (lessons p) = Z.to_nat TOTAL_LESSONS ->
  reports (snd (completeLesson id score p))
  = if all_completed (fst (completeLesson id score p)) then 1%nat else 0%nat.
Proof.
  intros Hlen. rewrite completeLesson_reports.
  pose proof (completeLesson_length id score p) as Hlen'. rewrite Hlen in Hlen'.
  pose proof (completedCount_all (lessons (fst (completeLesson id score p)))) as Hall.
  unfold all_completed.
  destruct (forallb completed _).
  - assert (Hc : completedCount (lessons (fst (completeLesson id score p)))
                 = Z.to_nat TOTAL_LESSONS) by (rewrite <- Hlen'; now apply Hall).
    rewrite Hc. reflexivity.
  - destruct (Z.eqb_spec
                (Z.of_nat (completedCount (lessons (fst (completeLesson id score p)))))
                TOTAL_LESSONS) as [Heq|]; [|reflexivity].
    assert (completedCount (lessons (fst (completeLesson id score p)))
            = Z.to_nat TOTAL_LESSONS) as Hc by (unfold TOTAL_LESSONS in *; lia).
    rewrite <- Hlen' in Hc. apply Hall in Hc. discriminate.
Qed.

(** The last missing lesson triggers the report; an earlier one does not. *)
Lemma completeLesson_reports_completion_witness :
  (reports (snd (completeLesson 7 None before_last_lesson))
   = if all_completed (fst (completeLesson 7 None before_last_lesson))
     then 1%nat else 0%nat)
  /\ (reports (snd (completeLesson 2 None after_first_lesson))
      = if all_completed (fst (completeLesson 2 None after_first_lesson))
        then 1%nat else 0%nat).
Proof.
  split.
  - apply (completeLesson_reports_completion before_last_lesson 7 None).
    reflexivity.
  - apply (completeLesson_reports_completion after_first_lesson 2 None).
    reflexivity.
Defined.

Example last_lesson_reports_once :
  reports (snd (completeLesson 7 None before_last_lesson)) = 1%nat
  /\ reports (snd (completeLesson 2 None after_first_lesson)) = 0%nat.
Proof. split; vm_compute; reflexivity. Qed.

(** C4, as stated, fails: after the whole course is completed, with the
    current lesson 7 and a score of 80 stored for lesson 1, a further
    [completeLesson(1)] without a score moves the current lesson to 2 and
    erases the score. *)
Lemma completeLesson_again_changes_data :
  all_completed completed_course = true
  /\ length (lessons completed_course) = 7%nat
  /\ currentLesson completed_course = 7
  /\ map quizScore (lessons completed_course)
     = [Some 80%float; None; None; None; None; None; None]
  /\ currentLesson (fst (completeLesson 1 None completed_course)) = 2
  /\ map quizScore (lessons (fst (completeLesson 1 None completed_course)))
     = [None; None; None; None; None; None; None]
  /\ fst (completeLesson 1 None completed_course) <> completed_course.
Proof.
  repeat split; try (vm_compute; reflexivity).
  intros Heq. apply (f_equal currentLesson) in Heq. vm_compute in Heq.
  discriminate.
Qed.

Lemma completeLesson_keeps_completed id score ls :
  forallb completed ls = true ->
  let ls' := map (fun l => if lessonId l =? id
                          then {| lessonId := lessonId l;
                                  completed := true;
                                  quizScore := score |}
                          else l) ls in
  map lessonId ls' = map lessonId ls
  /\ map completed ls' = map completed ls
  /\ map quizScore ls'
     = map (fun l => if lessonId l =? id then score else quizScore l) ls.
Proof.
  induction ls as [|l ls IH]; intros Hall; simpl in *.
  - repeat split.
  - apply andb_true_iff in Hall as [Hl Hls].
    destruct (IH Hls) as (Hid & Hc & Hq). cbv zeta in *.
    rewrite Hid, Hc, Hq.
    destruct (lessonId l =? id); simpl; rewrite ?Hl; repeat split.
Qed.

(** C4, amended.  On a store of seven lessons that are all completed,
    [completeLesson(k, quizScore)] with [k] in 1..7 keeps every lesson's
    identifier and [completed] flag, stores 100 in [overallProgress] and
    invokes the completion report again, once; it sets [currentLesson] to
    [k + 1] when [k < 7] and to 7 when [k = 7], and it replaces the
    [quizScore] of the lessons whose identifier is [k] by the argument (by
    nothing when the argument is omitted), the other scores being kept. *)
Theorem completeLesson_after_completion
    (p : CourseProgress) (k : Z) (score : option float) :
  length (lessons p) = Z.to_nat TOTAL_LESSONS ->
  all_completed p = true ->
  1 <= k <= TOTAL_LESSONS ->
  map lessonId (lessons (fst (completeLesson k score p))) = map lessonId (lessons p)
  /\ map completed (lessons (fst (completeLesson k score p)))
     = map completed (lessons p)
  /\ map quizScore (lessons (fst (completeLesson k score p)))
     = map (fun l => if lessonId l =? k then score else quizScore l) (lessons p)
  /\ overallProgress (fst (completeLesson k score p)) = 100%float
  /\ currentLesson (fst (completeLesson k score p))
     = (if k <? TOTAL_LESSONS then k + 1 else k)
  /\ snd (completeLesson k score p)
     = [ScormSetComplete; ConsoleLog completion_message].
Proof.
  intros Hlen Hall _.
  destruct (completeLesson_keeps_completed k score (lessons p) Hall)
    as (Hid & Hc & Hq).
  assert (Hall' : all_completed (fst (completeLesson k score p)) = true).
  { unfold all_completed in *. rewrite forallb_forall in *.
    intros l Hl. cbn [completeLesson fst lessons] in Hl.
    apply in_map_iff in Hl as (l0 & <- & Hl0).
    destruct (lessonId l0 =? k); [reflexivity | now apply Hall]. }
  assert (Hcount : completedCount (lessons (fst (completeLesson k score p)))
                   = Z.to_nat TOTAL_LESSONS).
  { rewrite <- Hlen, <- (completeLesson_length k score p).
    now apply completedCount_all. }
  repeat split.
  - exact Hid.
  - exact Hc.
  - exact Hq.
  - rewrite (completeLesson_overallProgress k score p Hlen). cbv zeta.
    rewrite Hcount. vm_compute. reflexivity.
  - cbn [completeLesson fst snd lessons] in *. now rewrite Hcount.
Qed.

Lemma completeLesson_after_completion_witness :
  map lessonId (lessons (fst (completeLesson 1 None completed_course)))
  = map lessonId (lessons completed_course)
  /\ map completed (lessons (fst (completeLesson 1 None completed_course)))
     = map completed (lessons completed_course)
  /\ map quizScore (lessons (fst (completeLesson 1 None completed_course)))
     = map (fun l => if lessonId l =? 1 then None else quizScore l)
           (lessons completed_course)
  /\ overallProgress (fst (completeLesson 1 None completed_course)) = 100%float
  /\ currentLesson (fst (completeLesson 1 None completed_course))
     = (if 1 <? TOTAL_LESSONS then 1 + 1 else 1)
  /\ snd (completeLesson 1 None completed_course)
     = [ScormSetComplete; ConsoleLog completion_message].
Proof.
  apply (completeLesson_after_completion completed_course 1 None);
    [vm_compute; reflexivity | vm_compute; reflexivity
     | unfold TOTAL_LESSONS; lia].
Defined.

(** With unique identifiers, a lesson is determined by its identifier. *)
Lemma lessonId_unique (ls : list LessonProgress) (a b : LessonProgress) :
  List.NoDup (map lessonId ls) -> In a ls -> In b ls ->
  lessonId a = lessonId b -> a = b.
Proof.
  induction ls as [|l ls IH]; simpl; intros Hnd Ha Hb Heq; [contradiction|].
  apply List.NoDup_cons_iff in Hnd as [Hnotin' Hnd].
  destruct Ha as [-> | Ha], Hb as [-> | Hb].
  - reflexivity.
  - exfalso. apply Hnotin'. rewrite Heq. now apply in_map.
  - exfalso. apply Hnotin'. rewrite <- Heq. now apply in_map.
  - now apply IH.
Qed.

(** Without a previous lesson in the store the answer is [false]. *)
Lemma isLessonAccessible_missing (p : CourseProgress) (k : Z) :
  k <> 1 -> (forall l, In l (lessons p) -> lessonId l <> k - 1) ->
  isLessonAccessible p k = false.
Proof.
  intros Hk Hnone. unfold isLessonAccessible.
  destruct (Z.eqb_spec k 1); [contradiction|].
  destruct (List.find _ _) as [l|] eqn:Hfind; [|reflexivity].
  apply find_some in Hfind as [Hin Hid].
  apply Z.eqb_eq in Hid. now apply Hnone in Hin.
Qed.

(** In every state, whatever the identifiers: [find] takes the first
    lesson whose identifier is [k - 1], and that one decides. *)
Lemma isLessonAccessible_first_match (p : CourseProgress) (k : Z) :
  k <> 1 ->
  (isLessonAccessible p k = true
   <-> exists before l after,
         lessons p = before ++ l :: after
         /\ (forall x, In x before -> lessonId x <> k - 1)
         /\ lessonId l = k - 1 /\ completed l = true).
Proof.
  intros Hk. unfold isLessonAccessible.
  destruct (Z.eqb_spec k 1); [contradiction|].
  induction (lessons p) as [|x ls IH]; simpl.
  - split; [discriminate|].
    intros (before & l & after & Heq & _). now destruct before.
  - destruct (Z.eqb_spec (lessonId x) (k - 1)) as [Hx|Hx].
    + split.
      * intros Hc. exists [], x, ls. repeat split; [|assumption..].
        intros y [].
      * intros (before & l & after & Heq & Hbefore & Hid & Hc).
        destruct before as [|y before]; simpl in Heq.
        -- now inversion Heq; subst.
        -- inversion Heq; subst. exfalso. apply (Hbefore y); [now left | exact Hx].
    + rewrite IH. split.
      * intros (before & l & after & -> & Hbefore & Hid & Hc).
        exists (x :: before), l, after. repeat split; try assumption.
        intros y [<- | Hy]; [exact Hx | now apply Hbefore].
      * intros (before & l & after & Heq & Hbefore & Hid & Hc).
        destruct before as [|y before]; simpl in Heq; inversion Heq; subst.
        -- contradiction.
        -- exists before, l, after. repeat split; try assumption.
           intros z Hz. apply Hbefore. now right.
Qed.

(** C7, as stated, fails: in a store where two lessons carry the
    identifier 1, the first incomplete and the second completed, a lesson
    with identifier 1 exists whose [completed] flag is set, and
    [isLessonAccessible(2)] is [false]. *)
Lemma isLessonAccessible_duplicate_refutes :
  isLessonAccessible MoreSamples.duplicated_lesson 2 = false
  /\ exists l, In l (lessons MoreSamples.duplicated_lesson)
               /\ lessonId l = 2 - 1 /\ completed l = true.
Proof.
  split; [reflexivity|].
  exists {| lessonId := 1; completed := true; quizScore := None |}.
  repeat split. simpl. right. left. reflexivity.
Qed.

(** C7, amended.  In every state, lesson 1 is accessible.  For every
    identifier [k] with [1 < k <= 2^53] (where [k - 1] is exact in binary64)
    and in every state: [isLessonAccessible(k)] is [true] iff the first
    lesson in store order whose identifier is [k - 1] exists and has its
    [completed] flag set; hence, when the identifiers of the store are
    pairwise distinct, iff the store holds a lesson with identifier [k - 1]
    whose [completed] flag is set; and it is [false] when the store holds
    no lesson with identifier [k - 1]. *)
Theorem isLessonAccessible_spec (p : CourseProgress) :
  isLessonAccessible p 1 = true
  /\ forall k, 1 < k <= 2 ^ 53 ->
       (isLessonAccessible p k = true
        <-> exists before l after,
              lessons p = before ++ l :: after
              /\ (forall x, In x before -> lessonId x <> k - 1)
              /\ lessonId l = k - 1 /\ completed l = true)
       /\ (List.NoDup (map lessonId (lessons p)) ->
           (isLessonAccessible p k = true
            <-> exists l, In l (lessons p) /\ lessonId l = k - 1
                          /\ completed l = true))
       /\ ((forall l, In l (lessons p) -> lessonId l <> k - 1) ->
           isLessonAccessible p k = false).
Proof.
  split; [reflexivity|].
  intros k [Hk _].
  assert (Hfirst := isLessonAccessible_first_match p k ltac:(lia)).
  split; [exact Hfirst|]. split.
  - intros Hnd. split.
    + intros Hacc. apply Hfirst in Hacc
        as (before & l & after & Heq & _ & Hid & Hc).
      exists l. repeat split; try assumption.
      rewrite Heq. apply in_or_app. right. now left.
    + intros (l' & Hin' & Hid' & Hc'). unfold isLessonAccessible.
      destruct (Z.eqb_spec k 1); [lia|].
      destruct (List.find _ _) as [l|] eqn:Hfind.
      * apply find_some in Hfind as [Hin Hid]. apply Z.eqb_eq in Hid.
        assert (l' = l) as <-
            by (apply (lessonId_unique (lessons p)); congruence).
        exact Hc'.
      * pose proof (find_none _ _ Hfind l' Hin') as Hno. simpl in Hno.
        apply Z.eqb_neq in Hno. contradiction.
  - apply isLessonAccessible_missing. lia.
Qed.

(** After the first lesson, lesson 2 is open and lesson 3 is not; with the
    duplicated identifier the first occurrence decides. *)
Lemma isLessonAccessible_spec_witness :
  ((isLessonAccessible after_first_lesson 2 = true
    <-> exists l, In l (lessons after_first_lesson) /\ lessonId l = 2 - 1
                  /\ completed l = true)
   /\ (isLessonAccessible after_first_lesson 3 = true
       <-> exists l, In l (lessons after_first_lesson) /\ lessonId l = 3 - 1
                     /\ completed l = true))
  /\ (isLessonAccessible MoreSamples.duplicated_lesson 2 = true
      <-> exists before l after,
            lessons MoreSamples.duplicated_lesson = before ++ l :: after
            /\ (forall x, In x before -> lessonId x <> 2 - 1)
            /\ lessonId l = 2 - 1 /\ completed l = true).
Proof.
  assert (Hnd : List.NoDup (map lessonId (lessons after_first_lesson))).
  { vm_compute. repeat (apply List.NoDup_cons; [simpl; intuition discriminate|]).
    apply List.NoDup_nil. }
  split; [split|].
  - apply (proj2 (isLessonAccessible_spec after_first_lesson) 2); [lia | exact Hnd].
  - apply (proj2 (isLessonAccessible_spec after_first_lesson) 3); [lia | exact Hnd].
  - apply (proj2 (isLessonAccessible_spec MoreSamples.duplicated_lesson) 2). lia.
Defined.

Example accessibility_after_first_lesson :
  map (isLessonAccessible after_first_lesson) [1; 2; 3; 4; 5; 6; 7; 8]
  = [true; true; false; false; false; false; false; false].
Proof. reflexivity. Qed.

(** With a duplicated identifier the first occurrence decides. *)
Example isLessonAccessible_duplicate_identifier :
  isLessonAccessible
    {| currentLesson := 1;
       lessons := [ {| lessonId := 1; completed := false; quizScore := None |};
                    {| lessonId := 1; completed := true; quizScore := None |} ];
       overallProgress := 50%float |} 2 = false.
Proof. reflexivity. Qed.

(** C8.  The store starts from the canonical initial state when nothing is
    stored under [STORAGE_KEY] or when the stored text does not parse, and
    from the parsed snapshot itself when it does; the canonical initial
    state has current lesson 1, seven incomplete lessons without scores and
    progress 0.  ([JSON.parse] rejects the empty text.) *)
Theorem loadProgress_spec
    (JSON_parse : string -> option CourseProgress)
    (localStorage : gmap string string) :
  JSON_parse ""%string = None ->
  match localStorage !! STORAGE_KEY with
  | None => loadProgress JSON_parse localStorage = initialProgress
  | Some saved =>
      match JSON_parse saved with
      | None => loadProgress JSON_parse localStorage = initialProgress
      | Some snapshot => loadProgress JSON_parse localStorage = snapshot
      end
  end
  /\ initialProgress
     = {| currentLesson := 1;
          lessons := [ {| lessonId := 1; completed := false; quizScore := None |};
                       {| lessonId := 2; completed := false; quizScore := None |};
                       {| lessonId := 3; completed := false; quizScore := None |};
                       {| lessonId := 4; completed := false; quizScore := None |};
                       {| lessonId := 5; completed := false; quizScore := None |};
                       {| lessonId := 6; completed := false; quizScore := None |};
                       {| lessonId := 7; completed := false; quizScore := None |} ];
          overallProgress := 0%float |}.
Proof.
  intros Hempty. split; [|reflexivity].
  unfold loadProgress.
  destruct (localStorage !! STORAGE_KEY) as [saved|]; [|reflexivity].
  unfold truthy. destruct (String.eqb_spec saved ""%string) as [->|_]; simpl.
  - now rewrite Hempty.
  - now destruct (JSON_parse saved).
Qed.

Lemma loadProgress_spec_witness :
  loadProgress parse_one storage_with_snapshot = after_first_lesson
  /\ loadProgress parse_one storage_with_garbage = initialProgress
  /\ loadProgress parse_one ∅ = initialProgress.
Proof.
  split; [|split].
  - exact (proj1 (loadProgress_spec parse_one storage_with_snapshot eq_refl)).
  - exact (proj1 (loadProgress_spec parse_one storage_with_garbage eq_refl)).
  - exact (proj1 (loadProgress_spec parse_one ∅ eq_refl)).
Defined.

End ProgressFacts.

(** * Properties of the runtime discovery *)

Module DiscoveryFacts.
Import Scorm Samples.

Example finds_in_frame_parents :
  ScormWrapper_constructor framed_course 1 0%nat = Returned (Some "LMS API"%string)
  /\ climb framed_course maxAttempts 0%nat 0 = (2%nat, 2%nat).
Proof. split; vm_compute; reflexivity. Qed.

Example finds_through_opener :
  findAPI popup_course 1 0%nat = Unfinished
  /\ ScormWrapper_constructor popup_course 2 0%nat = Returned (Some "LMS API"%string).
Proof. split; vm_compute; reflexivity. Qed.

(** The walk gives up after 500 hops on an endless chain of frames. *)
Example gives_up_on_endless_frames :
  climb endless_frames maxAttempts 0%nat 0 = (500%nat, 500%nat)
  /\ ScormWrapper_constructor endless_frames 1 0%nat = Returned None.
Proof. split; vm_compute; reflexivity. Qed.

Section Walk.
Context {Api : Type} (ws : Windows Api).

Lemma climb_guard_bound win attempts p :
  climb_guard ws win attempts = Some p -> (attempts < maxAttempts)%nat.
Proof.
  unfold climb_guard.
  destruct (API (ws win)); [discriminate|].
  destruct (parent (ws win)); [|discriminate].
  destruct (negb _); simpl; [|discriminate].
  destruct (Nat.ltb_spec attempts maxAttempts); [tauto | discriminate].
Qed.

(** The counter only grows, by at most the number of iterations, and never
    beyond [maxAttempts]: one call of [findAPI] makes at most 500 hops. *)
Lemma climb_hops fuel win attempts :
  (attempts <= maxAttempts)%nat ->
  (attempts <= snd (climb ws fuel win attempts) <= maxAttempts)%nat
  /\ (snd (climb ws fuel win attempts) <= attempts + fuel)%nat.
Proof.
  revert win attempts.
  induction fuel as [|fuel IH]; intros win attempts Hle; simpl.
  - lia.
  - destruct (climb_guard ws win attempts) as [p|] eqn:Hguard; simpl; [|lia].
    apply climb_guard_bound in Hguard.
    specialize (IH p (S attempts) ltac:(lia)). lia.
Qed.

(** With [maxAttempts] iterations at hand the loop stops because its guard
    fails, not because the iterations ran out. *)
Lemma climb_exits fuel win attempts :
  (maxAttempts <= attempts + fuel)%nat ->
  climb_guard ws (fst (climb ws fuel win attempts))
                 (snd (climb ws fuel win attempts)) = None.
Proof.
  revert win attempts.
  induction fuel as [|fuel IH]; intros win attempts Hle; simpl.
  - destruct (climb_guard ws win attempts) as [p|] eqn:Hguard; [|reflexivity].
    apply climb_guard_bound in Hguard. lia.
  - destruct (climb_guard ws win attempts) as [p|] eqn:Hguard; simpl.
    + apply IH. lia.
    + exact Hguard.
Qed.

(** Where the guard fails at once the loop does not move. *)
Lemma climb_stays fuel win attempts :
  climb_guard ws win attempts = None ->
  climb ws fuel win attempts = (win, attempts).
Proof. intros Hguard. destruct fuel; simpl; [|rewrite Hguard]; reflexivity. Qed.

(** A call that returns within [depth] nested calls returns the same with
    more. *)
Lemma findAPI_more_depth depth depth' win r :
  findAPI ws depth win = Returned r -> (depth <= depth')%nat ->
  findAPI ws depth' win = Returned r.
Proof.
  revert depth' win.
  induction depth as [|depth IH]; intros depth' win Hret Hle; [discriminate|].
  destruct depth' as [|depth']; [lia|].
  cbn [findAPI] in *.
  destruct (API (ws (fst (climb ws maxAttempts win 0)))); [exact Hret|].
  destruct (opener (ws (fst (climb ws maxAttempts win 0)))); [|exact Hret].
  apply IH; [exact Hret | lia].
Qed.

(** The search returns when the opener links cannot go round: if some
    rank never grows along [parent] and shrinks along [opener], then
    [findAPI] returns from every window. *)
Lemma findAPI_returns (rank : WindowRef -> nat) :
  (forall w p, parent (ws w) = Some p -> (rank p <= rank w)%nat) ->
  (forall w o, opener (ws w) = Some o -> (rank o < rank w)%nat) ->
  forall win, exists r, findAPI ws (S (rank win)) win = Returned r.
Proof.
  intros Hparent Hopener.
  assert (Hclimb : forall fuel win attempts,
             (rank (fst (climb ws fuel win attempts)) <= rank win)%nat).
  { induction fuel as [|fuel IH]; intros win attempts; simpl; [lia|].
    destruct (climb_guard ws win attempts) as [p|] eqn:Hguard; simpl; [|lia].
    assert (parent (ws win) = Some p) as Hp.
    { unfold climb_guard in Hguard.
      destruct (API (ws win)); [discriminate|].
      destruct (parent (ws win)); [|discriminate].
      destruct (_ && _); congruence. }
    specialize (IH p (S attempts)). apply Hparent in Hp. lia. }
  assert (Hall : forall n win, (rank win <= n)%nat ->
             exists r, findAPI ws (S n) win = Returned r).
  { induction n as [|n IH]; intros win Hrank;
      cbn [findAPI];
      specialize (Hclimb maxAttempts win 0%nat);
      destruct (API (ws (fst (climb ws maxAttempts win 0)))) as [a|];
      try (now eexists);
      destruct (opener (ws (fst (climb ws maxAttempts win 0)))) as [o|] eqn:Ho;
      try (now eexists);
      apply Hopener in Ho.
    - lia.
    - apply IH. lia. }
  intros win. now apply Hall.
Qed.

End Walk.

(** On the opener cycle every nested call leads to another one. *)
Lemma findAPI_opener_cycle depth win :
  findAPI opener_cycle depth win = Unfinished.
Proof.
  revert win. induction depth as [|depth IH]; intros win; [reflexivity|].
  cbn [findAPI].
  rewrite climb_stays.
  - cbn [fst opener_cycle API opener]. apply IH.
  - unfold climb_guard. cbn [opener_cycle API parent].
    now rewrite Nat.eqb_refl.
Qed.

(** C9.  The claim fails on the code: with two top-level windows that are
    each other's opener and carry no API, the constructor's search has not
    returned after any number of nested [findAPI] calls. *)
Theorem constructor_opener_cycle_never_returns (depth : nat) :
  ScormWrapper_constructor opener_cycle depth 0%nat = Unfinished.
Proof.
  unfold ScormWrapper_constructor. now rewrite findAPI_opener_cycle.
Qed.

End DiscoveryFacts.

(** * Properties of the session *)

Module SessionFacts.
Import Scorm Samples.

(** The wrapper run on the sample runtime. *)
Example session_scenario :
  calls active_page = [CallInitialize ""]
  /\ listeners active_page = ["beforeunload"%string; "unload"%string]
  /\ fst (getLearnerName active_page) = "Doe, Jane"%string
  /\ calls (snd (setComplete active_page))
     = [CallInitialize ""; CallSetValue "cmi.core.lesson_status" "completed";
        CallCommit ""]
  /\ lms (snd (setComplete active_page)) !! "cmi.core.lesson_status"%string
     = Some "completed"%string
  /\ initialize standalone_page
     = (false,
        snd (console_print "SCORM API not found - running in standalone mode"
                           standalone_page)).
Proof. repeat split; vm_compute; reflexivity. Qed.

Section Session.
Context {R : Type}.
Implicit Types (w : Page R) (a : ScormAPI R).

Ltac run :=
  unfold terminate, initialize in *;
  unfold commit, getValue, setValue in *;
  unfold unless_inactive, when, get, set_initialized, addEventListener,
         request, bind, ret in *;
  cbn [api initialized finishOnUnload lms calls listeners console fst snd negb]
    in *.

Lemma unless_inactive_default {A} (default : A) (body : ScormAPI R -> M R A) w :
  api w = None \/ initialized w = false ->
  unless_inactive R default body w = (default, w).
Proof.
  intros [Hapi | Hinit]; unfold unless_inactive.
  - rewrite Hapi. now destruct (negb (initialized w)).
  - now rewrite Hinit.
Qed.

(** C5.  While the wrapper is not active (no runtime handle, or
    [initialized] false: before a successful [initialize()] and after
    [terminate()]), [getValue] returns the empty string and [setValue] and
    [commit] return [false]; the page after the call is the page before it:
    no request is sent and no field changes. *)
Theorem inactive_defaults w (element value : string) :
  api w = None \/ initialized w = false ->
  getValue element w = (""%string, w)
  /\ setValue element value w = (false, w)
  /\ commit w = (false, w).
Proof.
  intros Hinactive. unfold getValue, setValue, commit.
  now rewrite !unless_inactive_default.
Qed.

(** What an active wrapper does for the three data operations. *)
Lemma active_operations w a (element value : string) :
  api w = Some a -> initialized w = true ->
  getValue element w = request (CallGetValue element) (LMSGetValue a element) w
  /\ fst (setValue element value w)
     = is_true (fst (LMSSetValue a element value (lms w)))
  /\ snd (setValue element value w)
     = snd (request (CallSetValue element value) (LMSSetValue a element value) w)
  /\ fst (commit w) = is_true (fst (LMSCommit a "" (lms w)))
  /\ snd (commit w) = snd (request (CallCommit "") (LMSCommit a "") w).
Proof.
  intros Hapi Hinit. run. rewrite Hapi, Hinit. cbn.
  destruct (LMSSetValue a element value (lms w)), (LMSCommit a "" (lms w)).
  repeat split.
Qed.

(** C6.  On an active wrapper, [terminate()] sends a commit request and
    then the finish request, leaves [initialized] false whatever the
    runtime answered, and returns [true] iff the answer to the finish
    request is the string "true"; a second [terminate()] returns [false]
    and leaves the page as it is, sending nothing. *)
Theorem terminate_spec w a :
  api w = Some a -> initialized w = true ->
  calls (snd (terminate w)) = calls w ++ [CallCommit ""; CallFinish ""]
  /\ lms (snd (terminate w))
     = snd (LMSFinish a "" (snd (LMSCommit a "" (lms w))))
  /\ initialized (snd (terminate w)) = false
  /\ (fst (terminate w) = true
      <-> fst (LMSFinish a "" (snd (LMSCommit a "" (lms w)))) = "true"%string)
  /\ terminate (snd (terminate w)) = (false, snd (terminate w)).
Proof.
  intros Hapi Hinit. run. rewrite Hapi, Hinit. cbn.
  destruct (LMSCommit a "" (lms w)) as [committed r1]. cbn.
  destruct (LMSFinish a "" r1) as [finished r2]. cbn.
  rewrite <- ?app_assoc. unfold is_true.
  repeat split; try apply String.eqb_eq.
Qed.

(** C10.  [terminate()] only clears [initialized]: on a wrapper that was
    active, a following [initialize()] sends a new [LMSInitialize] request
    and returns [true] iff the runtime answers "true"; in that case the
    wrapper is active again, with the same handle, and [getValue],
    [setValue] and [commit] send their requests to the runtime. *)
Theorem initialize_after_terminate w a :
  api w = Some a -> initialized w = true ->
  let closed := snd (terminate w) in
  let reopened := snd (initialize closed) in
  let answer := fst (LMSInitialize a "" (lms closed)) in
  initialized closed = false
  /\ calls reopened = calls closed ++ [CallInitialize ""]
  /\ (fst (initialize closed) = true <-> answer = "true"%string)
  /\ (answer = "true"%string ->
      api reopened = Some a
      /\ initialized reopened = true
      /\ forall element value : string,
           getValue element reopened
           = request (CallGetValue element) (LMSGetValue a element) reopened
           /\ fst (setValue element value reopened)
              = is_true (fst (LMSSetValue a element value (lms reopened)))
           /\ calls (snd (setValue element value reopened))
              = calls reopened ++ [CallSetValue element value]
           /\ fst (commit reopened)
              = is_true (fst (LMSCommit a "" (lms reopened)))
           /\ calls (snd (commit reopened))
              = calls reopened ++ [CallCommit ""]).
Proof.
  intros Hapi Hinit closed reopened answer.
  assert (Hclosed : api closed = Some a /\ initialized closed = false).
  { subst closed. run. rewrite Hapi, Hinit. cbn.
    destruct (LMSCommit a "" (lms w)) as [committed r1]. cbn.
    destruct (LMSFinish a "" r1) as [finished r2]. cbn. now split. }
  destruct Hclosed as [Hapi' Hinit'].
  assert (Hopen : calls reopened = calls closed ++ [CallInitialize ""]
                  /\ api reopened = Some a
                  /\ initialized reopened = is_true answer
                  /\ fst (initialize closed) = is_true answer).
  { subst reopened answer. clearbody closed. run.
    rewrite Hinit'. cbn. rewrite Hapi'. cbn.
    destruct (LMSInitialize a "" (lms closed)) as [result r]. cbn.
    destruct (is_true result) eqn:Hresult; cbn; unfold is_true in Hresult.
    - destruct (finishOnUnload closed); cbn; repeat split; congruence.
    - repeat split; congruence. }
  destruct Hopen as (Hcalls & Hapi'' & Hinit'' & Hret).
  split; [exact Hinit'|]. split; [exact Hcalls|]. split.
  - rewrite Hret. unfold is_true. apply String.eqb_eq.
  - intros Hanswer.
    assert (Hactive : initialized reopened = true).
    { rewrite Hinit''. unfold is_true. now apply String.eqb_eq. }
    split; [exact Hapi''|]. split; [exact Hactive|].
    intros element value.
    destruct (active_operations reopened a element value Hapi'' Hactive)
      as (Hget & Hset & Hset' & Hcommit & Hcommit').
    rewrite Hset', Hcommit'. unfold request.
    destruct (LMSSetValue a element value (lms reopened)),
             (LMSCommit a "" (lms reopened)).
    repeat split; assumption.
Qed.

End Session.

Lemma initialize_after_terminate_witness :
  let closed := snd (terminate active_page) in
  let reopened := snd (initialize closed) in
  let answer := fst (LMSInitialize friendly_api "" (lms closed)) in
  initialized closed = false
  /\ calls reopened = calls closed ++ [CallInitialize ""]
  /\ (fst (initialize closed) = true <-> answer = "true"%string)
  /\ (answer = "true"%string ->
      api reopened = Some friendly_api
      /\ initialized reopened = true
      /\ forall element value : string,
           getValue element reopened
           = request (CallGetValue element) (LMSGetValue friendly_api element)
                     reopened
           /\ fst (setValue element value reopened)
              = is_true (fst (LMSSetValue friendly_api element value
                                          (lms reopened)))
           /\ calls (snd (setValue element value reopened))
              = calls reopened ++ [CallSetValue element value]
           /\ fst (commit reopened)
              = is_true (fst (LMSCommit friendly_api "" (lms reopened)))
           /\ calls (snd (commit reopened))
              = calls reopened ++ [CallCommit ""]).
Proof.
  apply (initialize_after_terminate active_page friendly_api); reflexivity.
Defined.

(** Terminated and initialised again, the sample wrapper reads the learner
    name from the runtime. *)
Example reopened_session :
  calls (snd (initialize terminated_page))
  = [CallInitialize ""; CallCommit ""; CallFinish ""; CallInitialize ""]
  /\ getLearnerName (snd (initialize terminated_page))
     = ("Doe, Jane"%string,
        snd (request (CallGetValue "cmi.core.student_name")
                     (LMSGetValue friendly_api "cmi.core.student_name")
                     (snd (initialize terminated_page)))).
Proof. split; vm_compute; reflexivity. Qed.

Lemma terminate_spec_witness :
  (calls (snd (terminate active_page))
   = calls active_page ++ [CallCommit ""; CallFinish ""]
   /\ lms (snd (terminate active_page))
      = snd (LMSFinish friendly_api ""
               (snd (LMSCommit friendly_api "" (lms active_page))))
   /\ initialized (snd (terminate active_page)) = false
   /\ (fst (terminate active_page) = true
       <-> fst (LMSFinish friendly_api ""
                  (snd (LMSCommit friendly_api "" (lms active_page))))
           = "true"%string)
   /\ terminate (snd (terminate active_page))
      = (false, snd (terminate active_page)))
  /\ initialized (snd (terminate stubborn_active_page)) = false.
Proof.
  split.
  - apply (terminate_spec active_page friendly_api); reflexivity.
  - apply (terminate_spec stubborn_active_page stubborn_api); reflexivity.
Defined.

(** A runtime that refuses to finish: the session is closed all the same
    and the caller gets [false]. *)
Example terminate_refused :
  fst (terminate stubborn_active_page) = false
  /\ initialized (snd (terminate stubborn_active_page)) = false
  /\ calls (snd (terminate stubborn_active_page))
     = [CallInitialize ""; CallCommit ""; CallFinish ""].
Proof. repeat split; vm_compute; reflexivity. Qed.

Lemma inactive_defaults_witness :
  (getValue "cmi.core.lesson_status" standalone_page = (""%string, standalone_page)
   /\ setValue "cmi.core.lesson_status" "completed" standalone_page
      = (false, standalone_page)
   /\ commit standalone_page = (false, standalone_page))
  /\ (getValue "cmi.core.lesson_status" fresh_page = (""%string, fresh_page)
      /\ setValue "cmi.core.lesson_status" "completed" fresh_page
         = (false, fresh_page)
      /\ commit fresh_page = (false, fresh_page))
  /\ (getValue "cmi.core.lesson_status" terminated_page
      = (""%string, terminated_page)
      /\ setValue "cmi.core.lesson_status" "completed" terminated_page
         = (false, terminated_page)
      /\ commit terminated_page = (false, terminated_page)).
Proof.
  split; [|split].
  - apply (inactive_defaults standalone_page). left. reflexivity.
  - apply (inactive_defaults fresh_page). right. reflexivity.
  - apply (inactive_defaults terminated_page). right. reflexivity.
Defined.

End SessionFacts.

(** * The completion report as the runtime sees it *)

Module HookFacts.
Import Scorm Progress Samples.

(** On an active wrapper one report is a status write followed by a
    commit. *)
Lemma report_reaches_runtime {R : Type} (w : Page R) (a : ScormAPI R) :
  api w = Some a -> initialized w = true ->
  calls (snd (Hook.perform ScormSetComplete w))
  = calls w ++ [CallSetValue "cmi.core.lesson_status" "completed"; CallCommit ""].
Proof.
  intros Hapi Hinit.
  unfold Hook.perform, setComplete, setLessonStatus, setValue, commit,
         unless_inactive, request, bind, ret.
  cbn [status_text]. rewrite Hinit, Hapi. cbn.
  destruct (LMSSetValue a _ _ (lms w)) as [written r1]. cbn.
  rewrite ?Hinit, ?Hapi. cbn.
  destruct (LMSCommit a "" r1) as [committed r2]. cbn.
  now rewrite <- app_assoc.
Qed.

(** Outside an LMS the report changes nothing. *)
Lemma report_standalone {R : Type} (w : Page R) :
  api w = None \/ initialized w = false ->
  Hook.perform ScormSetComplete w = (tt, w).
Proof.
  intros Hinactive.
  unfold Hook.perform, setComplete, setLessonStatus, setValue, commit, bind, ret.
  now rewrite !SessionFacts.unless_inactive_default.
Qed.

(** The specification's scenario on the sample runtime: the seventh lesson
    completes the course and the runtime receives the status. *)
Example course_completion_on_page :
  fst (Hook.completeLesson 7 None before_last_lesson active_page)
  = fst (completeLesson 7 None before_last_lesson)
  /\ calls (snd (Hook.completeLesson 7 None before_last_lesson active_page))
     = [CallInitialize ""; CallSetValue "cmi.core.lesson_status" "completed";
        CallCommit ""]
  /\ console (snd (Hook.completeLesson 7 None before_last_lesson active_page))
     = [completion_message]
  /\ Hook.completeLesson 6 None after_first_lesson active_page
     = (fst (completeLesson 6 None after_first_lesson), active_page).
Proof. repeat split; vm_compute; reflexivity. Qed.

End HookFacts.

(** * Further properties of the runtime discovery *)

Module DiscoveryExtras.
Import Scorm Operations Samples MoreSamples.

Section Search.
Context {Api : Type} (ws : Windows Api).

(** The loop follows [parent] links only. *)
Lemma climb_linked fuel win attempts :
  linked ws win (fst (climb ws fuel win attempts)).
Proof.
  revert win attempts.
  induction fuel as [|fuel IH]; intros win attempts; simpl; [constructor|].
  destruct (climb_guard ws win attempts) as [p|] eqn:Hguard; simpl;
    [|constructor].
  apply linked_parent with p; [|apply IH].
  unfold climb_guard in Hguard.
  destruct (API (ws win)); [discriminate|].
  destruct (parent (ws win)); [|discriminate].
  destruct (_ && _); congruence.
Qed.

Lemma linked_trans a b c : linked ws a b -> linked ws b c -> linked ws a c.
Proof.
  induction 1; intros Hbc; [assumption | |].
  - eapply linked_parent; eauto.
  - eapply linked_opener; eauto.
Qed.

Lemma findAPI_linked depth win a :
  findAPI ws depth win = Returned (Some a) ->
  exists w, linked ws win w /\ API (ws w) = Some a.
Proof.
  revert win. induction depth as [|depth IH]; intros win Hfound; [discriminate|].
  cbn [findAPI] in Hfound.
  pose proof (climb_linked maxAttempts win 0) as Htop.
  destruct (API (ws (fst (climb ws maxAttempts win 0)))) as [a'|] eqn:Hapi.
  - injection Hfound as <-. eauto.
  - destruct (opener (ws (fst (climb ws maxAttempts win 0)))) as [o|] eqn:Ho;
      [|discriminate].
    destruct (IH o Hfound) as (w & Hlinked & Hw).
    exists w. split; [|exact Hw].
    eapply linked_trans; [exact Htop|]. eapply linked_opener; eauto.
Qed.

(** Along a chain of proper parent links without an API the loop advances
    one window per iteration. *)
Lemma climb_along (chain : nat -> WindowRef) (m : nat) :
  (m <= maxAttempts)%nat ->
  (forall i, (i < m)%nat ->
     API (ws (chain i)) = None
     /\ parent (ws (chain i)) = Some (chain (S i))
     /\ chain (S i) <> chain i) ->
  forall k i extra, (i + k = m)%nat ->
    climb ws (k + extra) (chain i) i = climb ws extra (chain m) m.
Proof.
  intros Hm Hchain.
  induction k as [|k IH]; intros i extra Hik.
  - replace i with m by lia. reflexivity.
  - destruct (Hchain i ltac:(lia)) as (Hapi & Hparent & Hne).
    cbn [Nat.add climb]. unfold climb_guard. rewrite Hapi, Hparent.
    destruct (Nat.eqb_spec (chain (S i)) (chain i)); [contradiction|].
    destruct (Nat.ltb_spec i maxAttempts); [|lia].
    cbn [negb andb]. apply IH. lia.
Qed.

(** X1.  In one call of [findAPI] the loop makes at most 500 hops, and it
    stops at a window where its guard fails: the window carries an API, or
    has no parent, or is its own parent, or 500 hops have been made. *)
Theorem parent_walk_bounded (win : WindowRef) :
  (snd (climb ws maxAttempts win 0) <= 500)%nat
  /\ (API (ws (fst (climb ws maxAttempts win 0))) <> None
      \/ parent (ws (fst (climb ws maxAttempts win 0))) = None
      \/ parent (ws (fst (climb ws maxAttempts win 0)))
         = Some (fst (climb ws maxAttempts win 0))
      \/ snd (climb ws maxAttempts win 0) = 500%nat).
Proof.
  pose proof (DiscoveryFacts.climb_hops ws maxAttempts win 0 ltac:(lia)) as [Hle _].
  pose proof (DiscoveryFacts.climb_exits ws maxAttempts win 0 ltac:(lia)) as Hexit.
  destruct (climb ws maxAttempts win 0) as [top hops]. cbn [fst snd] in *.
  split; [exact (proj2 Hle)|].
  unfold climb_guard in Hexit.
  destruct (API (ws top)); [left; discriminate|].
  destruct (parent (ws top)) as [p|]; [|right; left; reflexivity].
  destruct (Nat.eqb_spec p top) as [Heq|_];
    [right; right; left; now rewrite Heq|].
  destruct (Nat.ltb_spec hops maxAttempts); [discriminate|].
  right; right; right. change maxAttempts with 500%nat in *. lia.
Qed.

(** X2.  When the window itself or one of its first 500 ancestors carries
    an API, [findAPI] returns the API of the nearest such window, without
    looking at any opener. *)
Theorem findAPI_nearest_ancestor
    (chain : nat -> WindowRef) (n : nat) (a : Api) (depth : nat) :
  (n <= 500)%nat ->
  (forall i, (i < n)%nat ->
     API (ws (chain i)) = None
     /\ parent (ws (chain i)) = Some (chain (S i))
     /\ chain (S i) <> chain i) ->
  API (ws (chain n)) = Some a ->
  findAPI ws (S depth) (chain 0%nat) = Returned (Some a).
Proof.
  intros Hn Hchain Hapi. cbn [findAPI].
  replace maxAttempts with (n + (maxAttempts - n))%nat
    by (change maxAttempts with 500%nat; lia).
  rewrite (climb_along chain n ltac:(change maxAttempts with 500%nat; lia)
             Hchain n 0%nat _ ltac:(lia)).
  rewrite DiscoveryFacts.climb_stays.
  - cbn [fst]. now rewrite Hapi.
  - unfold climb_guard. now rewrite Hapi.
Qed.

(** X3.  An API that sits more than 500 parent links above the window is
    not found: when the window and its first 500 ancestors carry no API and
    the 500th ancestor has no opener, [findAPI] returns [null], whatever
    lies above. *)
Theorem findAPI_misses_beyond_500 (chain : nat -> WindowRef) (depth : nat) :
  (forall i, (i < 500)%nat ->
     API (ws (chain i)) = None
     /\ parent (ws (chain i)) = Some (chain (S i))
     /\ chain (S i) <> chain i) ->
  API (ws (chain 500%nat)) = None ->
  opener (ws (chain 500%nat)) = None ->
  findAPI ws (S depth) (chain 0%nat) = Returned None.
Proof.
  intros Hchain Hapi Hopener. cbn [findAPI].
  replace maxAttempts with (500 + 0)%nat by reflexivity.
  rewrite (climb_along chain 500 ltac:(reflexivity) Hchain 500%nat 0%nat 0%nat
             ltac:(reflexivity)).
  cbn [climb fst]. now rewrite Hapi, Hopener.
Qed.

(** X4.  A handle stored by the constructor is the [API] property of a
    window that can be reached from the wrapper's own window through
    [parent] and [opener] links; it is never made up. *)
Theorem constructor_handle_origin (depth : nat) (window : WindowRef) (a : Api) :
  ScormWrapper_constructor ws depth window = Returned (Some a) ->
  exists w, linked ws window w /\ API (ws w) = Some a.
Proof.
  unfold ScormWrapper_constructor. intros Hfound.
  destruct (findAPI ws depth window) as [[a'|]|] eqn:Hfirst; [| |discriminate].
  - injection Hfound as <-. now apply findAPI_linked with depth.
  - destruct (opener (ws window)) as [o|] eqn:Ho; [|discriminate].
    destruct (findAPI_linked depth o a Hfound) as (w & Hlinked & Hw).
    exists w. split; [|exact Hw]. eapply linked_opener; eauto.
Qed.

(** X5.  The constructor returns, with a handle or with [null], in every
    hierarchy whose opener links cannot go round: some rank of the windows
    never grows along [parent] and shrinks along [opener]. *)
Theorem constructor_returns_without_opener_cycle
    (rank : WindowRef -> nat) (window : WindowRef) :
  (forall w p, parent (ws w) = Some p -> (rank p <= rank w)%nat) ->
  (forall w o, opener (ws w) = Some o -> (rank o < rank w)%nat) ->
  exists r, ScormWrapper_constructor ws (S (rank window)) window = Returned r.
Proof.
  intros Hparent Hopener. unfold ScormWrapper_constructor.
  destruct (DiscoveryFacts.findAPI_returns ws rank Hparent Hopener window)
    as [[a|] ->]; [now eexists|].
  destruct (opener (ws window)) as [o|] eqn:Ho; [|now eexists].
  destruct (DiscoveryFacts.findAPI_returns ws rank Hparent Hopener o) as [r Hr].
  exists r. apply DiscoveryFacts.findAPI_more_depth with (S (rank o)); [exact Hr|].
  apply Hopener in Ho. lia.
Qed.

End Search.

Lemma parent_walk_bounded_witness :
  (snd (climb endless_frames maxAttempts 0%nat 0) <= 500)%nat
  /\ (API (endless_frames (fst (climb endless_frames maxAttempts 0%nat 0))) <> None
      \/ parent (endless_frames (fst (climb endless_frames maxAttempts 0%nat 0)))
         = None
      \/ parent (endless_frames (fst (climb endless_frames maxAttempts 0%nat 0)))
         = Some (fst (climb endless_frames maxAttempts 0%nat 0))
      \/ snd (climb endless_frames maxAttempts 0%nat 0) = 500%nat).
Proof. exact (parent_walk_bounded endless_frames 0%nat). Defined.

Lemma findAPI_nearest_ancestor_witness :
  findAPI framed_course 1 0%nat = Returned (Some "LMS API"%string).
Proof.
  apply (findAPI_nearest_ancestor framed_course (fun i => i) 2 "LMS API"%string 0).
  - lia.
  - intros i Hi.
    destruct i as [|[|i]]; [repeat split; discriminate.. | lia].
  - reflexivity.
Defined.

Lemma findAPI_misses_beyond_500_witness :
  findAPI deep_frames 1 0%nat = Returned None
  /\ API (deep_frames 501%nat) = Some "LMS API"%string.
Proof.
  split; [|reflexivity].
  apply (findAPI_misses_beyond_500 deep_frames (fun i => i) 0).
  - intros i Hi. unfold deep_frames.
    destruct (Nat.eqb_spec i 501); [lia|].
    cbn [API parent]. repeat split. lia.
  - reflexivity.
  - reflexivity.
Defined.

Lemma constructor_handle_origin_witness :
  exists w, linked popup_course 0%nat w
            /\ API (popup_course w) = Some "LMS API"%string.
Proof.
  apply (constructor_handle_origin popup_course 2 0%nat "LMS API"%string).
  vm_compute. reflexivity.
Defined.

Lemma constructor_returns_without_opener_cycle_witness :
  exists r,
    ScormWrapper_constructor popup_course (S (popup_rank 0%nat)) 0%nat = Returned r.
Proof.
  apply (constructor_returns_without_opener_cycle popup_course popup_rank 0%nat).
  - intros w p. destruct w as [|[|w]]; cbn; intros [= <-]; cbn; lia.
  - intros w o. destruct w as [|[|w]]; cbn; intros [= <-]; cbn; lia.
Defined.

End DiscoveryExtras.

(** * Further properties of the session *)

Module SessionExtras.
Import Scorm Operations Samples MoreSamples.

Ltac unfold_methods :=
  unfold after, getLearnerName, getLearnerId, getLessonStatus, setComplete,
         setLessonStatus, terminate, initialize, getLastError in *;
  unfold commit, getValue, setValue in *;
  unfold unless_inactive, when, get, set_initialized, addEventListener,
         console_print, request, bind, ret in *.

Ltac answer x :=
  let result := fresh "result" in
  let runtime := fresh "runtime" in
  destruct x as [result runtime]; cbn.

Ltac answer_requests :=
  repeat match goal with
         | |- context [LMSInitialize ?a ?p ?r] => answer (LMSInitialize a p r)
         | |- context [LMSFinish ?a ?p ?r] => answer (LMSFinish a p r)
         | |- context [LMSGetValue ?a ?e ?r] => answer (LMSGetValue a e r)
         | |- context [LMSSetValue ?a ?e ?v ?r] => answer (LMSSetValue a e v r)
         | |- context [LMSCommit ?a ?p ?r] => answer (LMSCommit a p r)
         | |- context [LMSGetLastError ?a ?r] => answer (LMSGetLastError a r)
         end.

Section Session.
Context {R : Type}.
Implicit Types (w : Page R) (a : ScormAPI R).

(** X6.  On a wrapper that holds a handle and is not initialised,
    [initialize()] sends exactly one [LMSInitialize('')] request; it
    returns [true], and the wrapper becomes initialised, iff the answer is
    "true"; the [beforeunload] and [unload] listeners are registered in
    that case only, so a rejected handshake leaves no listener behind. *)
Theorem initialize_spec w a :
  api w = Some a -> initialized w = false ->
  fst (initialize w) = is_true (fst (LMSInitialize a "" (lms w)))
  /\ initialized (snd (initialize w)) = is_true (fst (LMSInitialize a "" (lms w)))
  /\ lms (snd (initialize w)) = snd (LMSInitialize a "" (lms w))
  /\ calls (snd (initialize w)) = calls w ++ [CallInitialize ""]
  /\ listeners (snd (initialize w))
     = listeners w
       ++ (if is_true (fst (LMSInitialize a "" (lms w))) && finishOnUnload w
           then ["beforeunload"%string; "unload"%string] else [])
  /\ api (snd (initialize w)) = Some a
  /\ console (snd (initialize w)) = console w.
Proof.
  intros Hapi Hinit. unfold_methods. rewrite Hinit. cbn. rewrite Hapi. cbn.
  destruct (LMSInitialize a "" (lms w)) as [result runtime]. cbn.
  unfold is_true.
  destruct (String.eqb result "true"); cbn.
  - destruct (finishOnUnload w); cbn; rewrite <- ?app_assoc, ?app_nil_r;
      repeat split; auto.
  - rewrite app_nil_r. repeat split; auto.
Qed.

(** X7.  Once [initialize()] has returned [true], a further call returns
    [true] and changes nothing: no second handshake is sent and no further
    listener is registered. *)
Theorem initialize_again_is_noop w :
  fst (initialize w) = true ->
  initialize (snd (initialize w)) = (true, snd (initialize w)).
Proof.
  unfold_methods.
  destruct (initialized w) eqn:Hinit; cbn.
  - intros _. now rewrite Hinit.
  - destruct (api w) as [a|]; cbn; [|discriminate].
    destruct (LMSInitialize a "" (lms w)) as [result runtime]. cbn.
    destruct (is_true result); cbn; [|discriminate].
    destruct (finishOnUnload w); cbn; reflexivity.
Qed.

Lemma standalone_step (op : Operation) w :
  api w = None ->
  api (after op w) = None
  /\ initialized (after op w) = initialized w
  /\ lms (after op w) = lms w
  /\ calls (after op w) = calls w
  /\ listeners (after op w) = listeners w.
Proof.
  intros Hapi. destruct op; unfold_methods; rewrite ?Hapi;
    destruct (initialized w) eqn:Hinit; cbn;
    rewrite ?Hapi, ?Hinit; cbn; rewrite ?Hapi, ?Hinit; cbn;
    repeat split; auto.
Qed.

(** X8.  Without a runtime handle (standalone mode) no sequence of calls
    of the wrapper's methods sends a request, changes the runtime,
    registers a listener or makes the wrapper initialised. *)
Theorem standalone_never_calls (ops : list Operation) w :
  api w = None ->
  api (after_all ops w) = None
  /\ initialized (after_all ops w) = initialized w
  /\ lms (after_all ops w) = lms w
  /\ calls (after_all ops w) = calls w
  /\ listeners (after_all ops w) = listeners w.
Proof.
  revert w. induction ops as [|op ops IH]; intros w Hapi.
  - repeat split; assumption.
  - destruct (standalone_step op w Hapi) as (Hapi' & Hinit & Hlms & Hcalls & Hlis).
    destruct (IH (after op w) Hapi') as (? & ? & ? & ? & ?).
    unfold after_all in *. cbn [fold_left].
    repeat split; congruence.
Qed.

Lemma session_ok_step found (op : Operation) w :
  session_ok found w -> session_ok found (after op w).
Proof.
  unfold session_ok. intros (Hapi & Hflag & Hhandle).
  destruct op; unfold_methods;
    destruct (initialized w) eqn:Hinit, (api w) as [a|] eqn:Ha; cbn;
    rewrite ?Ha, ?Hinit; cbn; answer_requests;
    rewrite ?Ha, ?Hinit; cbn; answer_requests;
    try (destruct (is_true _) eqn:?; cbn);
    rewrite ?Hflag; cbn;
    repeat split; try assumption; try congruence; try discriminate;
    try (intros _; subst found; discriminate).
Qed.

Lemma session_ok_after_all found (ops : list Operation) w :
  session_ok found w -> session_ok found (after_all ops w).
Proof.
  revert w. induction ops as [|op ops IH]; intros w Hok; [exact Hok|].
  unfold after_all in *. cbn [fold_left]. apply IH.
  now apply session_ok_step.
Qed.

Lemma session_ok_new found (runtime : R) :
  session_ok found (new_ScormWrapper found runtime).
Proof. repeat split. discriminate. Qed.

(** X9.  Whatever methods are called on the singleton after its
    construction, in whatever order, the handle found by the constructor is
    never replaced or dropped, [finishOnUnload] stays set, and
    [isConnected()] is just the [initialized] flag: the wrapper is never
    initialised without a handle. *)
Theorem session_invariant
    (found : option (ScormAPI R)) (runtime : R) (ops : list Operation) :
  api (after_all ops (new_ScormWrapper found runtime)) = found
  /\ finishOnUnload (after_all ops (new_ScormWrapper found runtime)) = true
  /\ isConnected (after_all ops (new_ScormWrapper found runtime))
     = initialized (after_all ops (new_ScormWrapper found runtime)).
Proof.
  destruct (session_ok_after_all found ops _ (session_ok_new found runtime))
    as (Hapi & Hflag & Hhandle).
  repeat split; try assumption.
  unfold isConnected. rewrite Hapi.
  destruct found; [reflexivity|].
  destruct (initialized _); [|reflexivity].
  now destruct Hhandle.
Qed.

(** X10.  On the singleton, at any point of its life, [initialize()]
    returns exactly what [isConnected()] reports right after it. *)
Theorem initialize_reports_connection
    (found : option (ScormAPI R)) (runtime : R) (ops : list Operation) :
  fst (initialize (after_all ops (new_ScormWrapper found runtime)))
  = isConnected
      (snd (initialize (after_all ops (new_ScormWrapper found runtime)))).
Proof.
  pose proof (session_ok_after_all found ops _ (session_ok_new found runtime))
    as Hok.
  pose proof (session_ok_step found Initialize _ Hok) as (Hapi' & _ & _).
  destruct Hok as (Hapi & _ & Hhandle).
  set (w := after_all ops (new_ScormWrapper found runtime)) in *.
  cbn [after] in Hapi'.
  unfold isConnected. rewrite Hapi'.
  clearbody w. unfold_methods.
  destruct (initialized w) eqn:Hinit; cbn.
  - rewrite Hinit. destruct found; [reflexivity|]. now destruct Hhandle.
  - rewrite Hapi. destruct found as [a|]; cbn; [|reflexivity].
    destruct (LMSInitialize a "" (lms w)) as [result r]. cbn.
    destruct (is_true result); cbn; [|reflexivity].
    destruct (finishOnUnload w); reflexivity.
Qed.

(** X11.  On an active wrapper [setComplete()] sends the status write
    ["cmi.core.lesson_status" := "completed"] and then a commit, in that
    order and nothing else; it returns whether the write was accepted,
    whatever the runtime answered to the commit, and leaves the wrapper
    active. *)
Theorem setComplete_spec w a :
  api w = Some a -> initialized w = true ->
  fst (setComplete w)
  = is_true (fst (LMSSetValue a "cmi.core.lesson_status" "completed" (lms w)))
  /\ calls (snd (setComplete w))
     = calls w ++ [CallSetValue "cmi.core.lesson_status" "completed";
                   CallCommit ""]
  /\ lms (snd (setComplete w))
     = snd (LMSCommit a ""
              (snd (LMSSetValue a "cmi.core.lesson_status" "completed" (lms w))))
  /\ initialized (snd (setComplete w)) = true
  /\ api (snd (setComplete w)) = Some a.
Proof.
  intros Hapi Hinit. unfold_methods. cbn [status_text].
  rewrite Hinit, Hapi. cbn.
  destruct (LMSSetValue a _ _ (lms w)) as [written r1]. cbn.
  rewrite ?Hinit, ?Hapi. cbn.
  destruct (LMSCommit a "" r1) as [committed r2]. cbn.
  rewrite <- app_assoc. repeat split; assumption.
Qed.

(** X12.  [getLastError()] is guarded by the handle only: it returns the
    empty string and does nothing without one, and with one it queries the
    runtime whether or not the session is initialised, hence also before
    [initialize()] and after [terminate()], where [getValue] stays
    silent. *)
Theorem getLastError_ignores_initialized w :
  (api w = None -> getLastError w = (""%string, w))
  /\ (forall a, api w = Some a ->
        fst (getLastError w) = fst (LMSGetLastError a (lms w))
        /\ calls (snd (getLastError w)) = calls w ++ [CallGetLastError]
        /\ lms (snd (getLastError w)) = snd (LMSGetLastError a (lms w))
        /\ initialized (snd (getLastError w)) = initialized w
        /\ (initialized w = false ->
            forall element, calls (snd (getValue element w)) = calls w)).
Proof.
  split.
  - intros Hapi. unfold_methods. now rewrite Hapi.
  - intros a Hapi. unfold_methods. rewrite Hapi. cbn.
    destruct (LMSGetLastError a (lms w)) as [code r]. cbn.
    repeat split. intros Hinit element. now rewrite Hinit.
Qed.

End Session.

Lemma initialize_spec_witness :
  (fst (initialize fresh_page)
   = is_true (fst (LMSInitialize friendly_api "" (lms fresh_page)))
   /\ initialized (snd (initialize fresh_page))
      = is_true (fst (LMSInitialize friendly_api "" (lms fresh_page)))
   /\ lms (snd (initialize fresh_page))
      = snd (LMSInitialize friendly_api "" (lms fresh_page))
   /\ calls (snd (initialize fresh_page)) = calls fresh_page ++ [CallInitialize ""]
   /\ listeners (snd (initialize fresh_page))
      = listeners fresh_page
        ++ (if is_true (fst (LMSInitialize friendly_api "" (lms fresh_page)))
               && finishOnUnload fresh_page
            then ["beforeunload"%string; "unload"%string] else [])
   /\ api (snd (initialize fresh_page)) = Some friendly_api
   /\ console (snd (initialize fresh_page)) = console fresh_page)
  /\ listeners (snd (initialize closed_page))
     = listeners closed_page
       ++ (if is_true (fst (LMSInitialize closed_api "" (lms closed_page)))
              && finishOnUnload closed_page
           then ["beforeunload"%string; "unload"%string] else []).
Proof.
  split.
  - apply (initialize_spec fresh_page friendly_api); reflexivity.
  - apply (initialize_spec closed_page closed_api); reflexivity.
Defined.

Example initialize_rejected :
  initialize closed_page
  = (false,
     snd (request (CallInitialize "") (LMSInitialize closed_api "") closed_page))
  /\ listeners (snd (initialize closed_page)) = [].
Proof. split; vm_compute; reflexivity. Qed.

Lemma initialize_again_is_noop_witness :
  initialize (snd (initialize fresh_page)) = (true, snd (initialize fresh_page)).
Proof. apply (initialize_again_is_noop fresh_page). reflexivity. Defined.

Lemma standalone_never_calls_witness :
  api (after_all [Initialize; SetComplete; GetLearnerName; Terminate]
                 standalone_page) = None
  /\ initialized (after_all [Initialize; SetComplete; GetLearnerName; Terminate]
                            standalone_page)
     = initialized standalone_page
  /\ lms (after_all [Initialize; SetComplete; GetLearnerName; Terminate]
                    standalone_page)
     = lms standalone_page
  /\ calls (after_all [Initialize; SetComplete; GetLearnerName; Terminate]
                      standalone_page)
     = calls standalone_page
  /\ listeners (after_all [Initialize; SetComplete; GetLearnerName; Terminate]
                          standalone_page)
     = listeners standalone_page.
Proof.
  apply (standalone_never_calls
           [Initialize; SetComplete; GetLearnerName; Terminate] standalone_page).
  reflexivity.
Defined.

Lemma setComplete_spec_witness :
  fst (setComplete readonly_active_page)
  = is_true (fst (LMSSetValue readonly_api "cmi.core.lesson_status" "completed"
                              (lms readonly_active_page)))
  /\ calls (snd (setComplete readonly_active_page))
     = calls readonly_active_page
       ++ [CallSetValue "cmi.core.lesson_status" "completed"; CallCommit ""]
  /\ lms (snd (setComplete readonly_active_page))
     = snd (LMSCommit readonly_api ""
              (snd (LMSSetValue readonly_api "cmi.core.lesson_status" "completed"
                                (lms readonly_active_page))))
  /\ initialized (snd (setComplete readonly_active_page)) = true
  /\ api (snd (setComplete readonly_active_page)) = Some readonly_api.
Proof.
  apply (setComplete_spec readonly_active_page readonly_api); reflexivity.
Defined.

Example getLastError_before_initialize :
  getLastError fresh_page
  = ("0"%string, snd (request CallGetLastError (LMSGetLastError friendly_api)
                              fresh_page))
  /\ calls (snd (getLastError terminated_page))
     = [CallInitialize ""; CallCommit ""; CallFinish ""; CallGetLastError].
Proof. split; vm_compute; reflexivity. Qed.

End SessionExtras.

(** * Further properties of the progress store *)

Module ProgressExtras.
Import Js Progress Persistence Samples MoreSamples.

(** What [completeLesson] does to one lesson. *)
Abbreviation mark id score :=
  (fun l => if lessonId l =? id
            then {| lessonId := lessonId l; completed := true; quizScore := score |}
            else l).

Lemma completeLesson_lessons id score p :
  lessons (fst (completeLesson id score p)) = map (mark id score) (lessons p).
Proof. reflexivity. Qed.

(** The next state is a function of the new lessons and the identifier. *)
Lemma completeLesson_same_lessons id score score' p p' :
  lessons (fst (completeLesson id score p))
  = lessons (fst (completeLesson id score' p')) ->
  completeLesson id score p = completeLesson id score' p'.
Proof.
  rewrite !completeLesson_lessons. intros Heq.
  unfold completeLesson. now rewrite Heq.
Qed.


(** X13.  In every state, [completeLesson(k, score)] keeps the number,
    order and identifiers of the lessons; a lesson with another identifier
    is left exactly as it was; a lesson with identifier [k] becomes
    completed with the given score; no [completed] flag is ever cleared. *)
Theorem completeLesson_touches_matching_only
    (p : CourseProgress) (k : Z) (score : option float) :
  Forall2 (fun old new =>
             lessonId new = lessonId old
             /\ (completed old = true -> completed new = true)
             /\ (lessonId old <> k -> new = old)
             /\ (lessonId old = k ->
                 completed new = true /\ quizScore new = score))
          (lessons p) (lessons (fst (completeLesson k score p))).
Proof.
  rewrite completeLesson_lessons.
  induction (lessons p) as [|l ls IH]; simpl; constructor; [|exact IH].
  destruct (Z.eqb_spec (lessonId l) k); simpl; repeat split; auto;
    intros; congruence.
Qed.

(** X14.  [completeLesson(k)] raises the number of completed lessons by
    the number of incomplete lessons that carry the identifier [k]: by
    nothing when no lesson carries it or when it was completed already; the
    count never goes down. *)
Theorem completeLesson_count
    (p : CourseProgress) (k : Z) (score : option float) :
  completedCount (lessons (fst (completeLesson k score p)))
  = (completedCount (lessons p)
     + length (List.filter (fun l => (lessonId l =? k)%Z && negb (completed l))
                           (lessons p)))%nat.
Proof.
  rewrite completeLesson_lessons. unfold completedCount.
  induction (lessons p) as [|l ls IH]; simpl; [reflexivity|].
  destruct (lessonId l =? k), (completed l); simpl; rewrite IH; lia.
Qed.

(** X15.  Repeating a [completeLesson] call with the same arguments
    changes nothing more: the second call yields the state of the first,
    and makes the same calls on the wrapper. *)
Theorem completeLesson_idempotent
    (p : CourseProgress) (k : Z) (score : option float) :
  completeLesson k score (fst (completeLesson k score p))
  = completeLesson k score p.
Proof.
  apply completeLesson_same_lessons.
  rewrite !completeLesson_lessons, map_map.
  apply map_ext. intros l.
  destruct (Z.eqb_spec (lessonId l) k) as [Hl|Hl]; simpl.
  - now rewrite (proj2 (Z.eqb_eq _ _) Hl).
  - now rewrite (proj2 (Z.eqb_neq _ _) Hl).
Qed.


(** X17.  The identifier is not validated: when no lesson carries [k],
    with [k] of magnitude at most 2^53 (where [k + 1] is exact in binary64),
    [completeLesson(k)] leaves every lesson as it was and still moves
    [currentLesson], to [k + 1] for [k < 7] and to [k] otherwise. *)
Theorem completeLesson_unknown_lesson
    (p : CourseProgress) (k : Z) (score : option float) :
  - 2 ^ 53 <= k <= 2 ^ 53 ->
  (forall l, In l (lessons p) -> lessonId l <> k) ->
  lessons (fst (completeLesson k score p)) = lessons p
  /\ currentLesson (fst (completeLesson k score p))
     = (if k <? TOTAL_LESSONS then k + 1 else k).
Proof.
  intros _ Hnone. split; [|reflexivity].
  rewrite completeLesson_lessons.
  rewrite <- (map_id (lessons p)) at 2. apply map_ext_in.
  intros l Hl. apply Hnone in Hl.
  now rewrite (proj2 (Z.eqb_neq _ _) Hl).
Qed.

Lemma find_marked id score ls l :
  In l ls -> lessonId l = id ->
  exists l', List.find (fun x => lessonId x =? id) (map (mark id score) ls)
             = Some l' /\ completed l' = true.
Proof.
  induction ls as [|x ls IH]; simpl; intros Hin Hid; [contradiction|].
  destruct (Z.eqb_spec (lessonId x) id) as [Hx|Hx]; simpl.
  - rewrite (proj2 (Z.eqb_eq _ _) Hx). eauto.
  - rewrite (proj2 (Z.eqb_neq _ _) Hx).
    destruct Hin as [->|Hin]; [contradiction|]. now apply IH.
Qed.

(** X18.  Completing a lesson the store holds opens the next one: for
    [k] with [-2^53 <= k < 2^53] (where [k + 1] and [(k + 1) - 1] are exact
    in binary64), after [completeLesson(k)], [isLessonAccessible(k + 1)] is
    [true]; so for [k < 7] the lesson the store moves to is accessible. *)
Theorem completeLesson_opens_next
    (p : CourseProgress) (k : Z) (score : option float) (l : LessonProgress) :
  - 2 ^ 53 <= k < 2 ^ 53 ->
  In l (lessons p) -> lessonId l = k ->
  isLessonAccessible (fst (completeLesson k score p)) (k + 1) = true
  /\ (k < TOTAL_LESSONS ->
      isLessonAccessible (fst (completeLesson k score p))
                         (currentLesson (fst (completeLesson k score p))) = true).
Proof.
  intros _ Hin Hid.
  assert (Hnext : isLessonAccessible (fst (completeLesson k score p)) (k + 1) = true).
  { unfold isLessonAccessible. destruct (k + 1 =? 1); [reflexivity|].
    rewrite completeLesson_lessons. replace (k + 1 - 1) with k by lia.
    destruct (find_marked k score (lessons p) l Hin Hid) as (l' & -> & Hc).
    exact Hc. }
  split; [exact Hnext|].
  intros Hk. cbn [completeLesson fst currentLesson].
  destruct (Z.ltb_spec k TOTAL_LESSONS); [exact Hnext | lia].
Qed.

Lemma reachable_ids p :
  reachable p -> map lessonId (lessons p) = [1; 2; 3; 4; 5; 6; 7].
Proof.
  induction 1 as [|p id score _ IH _|p id _ IH _|p _ _];
    [reflexivity | | exact IH | reflexivity].
  rewrite completeLesson_lessons, map_map, <- IH. apply map_ext.
  intros l. now destruct (lessonId l =? id).
Qed.

(** X19.  Every state the store reaches from the canonical initial state
    (through the three mutators with identifiers 1..7) holds exactly the
    lessons 1, 2, ..., 7, in that order, and has its current lesson between
    1 and 7. *)
Theorem reachable_lessons_fixed (p : CourseProgress) :
  reachable p ->
  map lessonId (lessons p) = [1; 2; 3; 4; 5; 6; 7]
  /\ 1 <= currentLesson p <= 7.
Proof.
  intros Hp. split; [now apply reachable_ids|].
  destruct Hp as [|p id score _ Hid|p id _ Hid|p _]; unfold TOTAL_LESSONS in *.
  - simpl. lia.
  - cbn [completeLesson fst currentLesson]. unfold TOTAL_LESSONS.
    destruct (Z.ltb_spec id 7); lia.
  - simpl. lia.
  - simpl. lia.
Qed.

Lemma hundred_iff_seven (c : nat) :
  (c <= 7)%nat ->
  (number_of_Z (round_percent (Z.of_nat c) TOTAL_LESSONS) = 100%float
   <-> c = 7%nat).
Proof.
  intros Hc.
  do 7 (destruct c as [|c];
        [split; [|discriminate]; intros H;
         apply (f_equal (fun x => PrimFloat.eqb x 100%float)) in H;
         vm_compute in H; discriminate|]).
  destruct c; [|lia]. split; reflexivity.
Qed.

(** X20.  In every reachable state [overallProgress] is 100 exactly when
    all seven lessons are completed. *)
Theorem reachable_hundred_iff_completed (p : CourseProgress) :
  reachable p ->
  (overallProgress p = 100%float <-> all_completed p = true).
Proof.
  induction 1 as [|p id score Hp _ _|p id _ IH _|p _ _].
  - split; [|discriminate]. intros H.
    apply (f_equal (fun x => PrimFloat.eqb x 100%float)) in H.
    vm_compute in H. discriminate.
  - pose proof (ProgressFacts.reachable_length p Hp) as Hlen.
    rewrite (ProgressFacts.completeLesson_overallProgress id score p Hlen).
    cbv zeta.
    pose proof (ProgressFacts.completeLesson_length id score p) as Hlen'.
    pose proof (ProgressFacts.completedCount_le
                  (lessons (fst (completeLesson id score p)))) as Hle.
    rewrite Hlen', Hlen in Hle.
    rewrite hundred_iff_seven by exact Hle.
    unfold all_completed. rewrite <- ProgressFacts.completedCount_all.
    rewrite Hlen', Hlen. reflexivity.
  - exact IH.
  - split; [|discriminate]. intros H.
    apply (f_equal (fun x => PrimFloat.eqb x 100%float)) in H.
    vm_compute in H. discriminate.
Qed.

(** X21.  On a store without lessons (an empty snapshot)
    [completeLesson] divides zero by zero: [overallProgress] becomes NaN,
    the store stays empty and nothing is reported. *)
Theorem completeLesson_empty_store
    (p : CourseProgress) (k : Z) (score : option float) :
  lessons p = [] ->
  overallProgress (fst (completeLesson k score p)) = nan
  /\ lessons (fst (completeLesson k score p)) = []
  /\ snd (completeLesson k score p) = [].
Proof.
  intros Hempty. unfold completeLesson. rewrite Hempty.
  split; [vm_compute; reflexivity | split; reflexivity].
Qed.

(** X22.  The report is tied to the count seven, not to the store: on a
    store that does not hold exactly seven lessons, a [completeLesson] call
    that leaves every lesson completed reports nothing. *)
Theorem completeLesson_other_size_never_reports
    (p : CourseProgress) (k : Z) (score : option float) :
  length (lessons p) <> 7%nat ->
  all_completed (fst (completeLesson k score p)) = true ->
  reports (snd (completeLesson k score p)) = 0%nat.
Proof.
  intros Hlen Hall. rewrite ProgressFacts.completeLesson_reports.
  apply ProgressFacts.completedCount_all in Hall.
  rewrite Hall, ProgressFacts.completeLesson_length.
  destruct (Z.eqb_spec (Z.of_nat (length (lessons p))) TOTAL_LESSONS) as [Heq|];
    [|reflexivity].
  unfold TOTAL_LESSONS in Heq. lia.
Qed.

(** X23.  In a reachable state only the lessons 1 to 8 can be accessible:
    [isLessonAccessible(k)] is [false] for every [k] below 1 or above 8.
    (Lesson 8, which the course does not have, is accessible once lesson 7
    is completed.) *)
Theorem reachable_accessible_range (p : CourseProgress) (k : Z) :
  reachable p ->
  isLessonAccessible p k = true ->
  1 <= k <= 8.
Proof.
  intros Hp Hacc. apply reachable_ids in Hp as Hids.
  destruct (Z.eq_dec k 1) as [->|Hk]; [lia|].
  destruct (Z_le_gt_dec 1 k) as [Hlow|Hlow];
    [destruct (Z_le_gt_dec k 8) as [Hhigh|Hhigh]; [lia|]|];
    rewrite ProgressFacts.isLessonAccessible_missing in Hacc;
    try discriminate; try assumption;
    intros l Hl Hid;
    apply (in_map lessonId) in Hl; rewrite Hids in Hl; simpl in Hl; lia.
Qed.

(** X24.  A snapshot written by the persisting effect is what the store
    starts from after a reload, whatever was stored before, provided the
    platform's parser reads the serialised state back; the other keys of
    the storage are not touched.  Removing the snapshot, as
    [resetProgress] does, makes the store start from the canonical initial
    state. *)
Theorem snapshot_round_trip
    (JSON_parse : string -> option CourseProgress)
    (JSON_stringify : CourseProgress -> string)
    (p : CourseProgress) (localStorage : gmap string string) :
  JSON_parse ""%string = None ->
  JSON_parse (JSON_stringify p) = Some p ->
  loadProgress JSON_parse (persist JSON_stringify p localStorage) = p
  /\ (forall key, key <> STORAGE_KEY ->
        persist JSON_stringify p localStorage !! key = localStorage !! key)
  /\ loadProgress JSON_parse
       (removeSnapshot (persist JSON_stringify p localStorage))
     = initialProgress.
Proof.
  intros Hempty Hback. unfold loadProgress, persist, removeSnapshot.
  rewrite lookup_insert_eq, lookup_delete_eq.
  split; [|split].
  - unfold truthy.
    destruct (String.eqb_spec (JSON_stringify p) ""%string) as [Heq|_]; simpl.
    + rewrite Heq in Hback. congruence.
    + now rewrite Hback.
  - intros key Hkey. now apply lookup_insert_ne.
  - reflexivity.
Qed.


Lemma completeLesson_unknown_lesson_witness :
  lessons (fst (completeLesson 9 None initialProgress)) = lessons initialProgress
  /\ currentLesson (fst (completeLesson 9 None initialProgress))
     = (if 9 <? TOTAL_LESSONS then 9 + 1 else 9).
Proof.
  apply (completeLesson_unknown_lesson initialProgress 9 None); [lia|].
  intros l Hl. simpl in Hl.
  repeat (destruct Hl as [<-|Hl]; [discriminate|]). contradiction.
Defined.

Lemma completeLesson_opens_next_witness :
  isLessonAccessible (fst (completeLesson 2 None after_first_lesson)) (2 + 1) = true
  /\ (2 < TOTAL_LESSONS ->
      isLessonAccessible
        (fst (completeLesson 2 None after_first_lesson))
        (currentLesson (fst (completeLesson 2 None after_first_lesson))) = true).
Proof.
  apply (completeLesson_opens_next after_first_lesson 2 None
           {| lessonId := 2; completed := false; quizScore := None |}).
  - lia.
  - simpl. right. left. reflexivity.
  - reflexivity.
Defined.

Lemma reachable_lessons_fixed_witness :
  map lessonId (lessons after_first_lesson) = [1; 2; 3; 4; 5; 6; 7]
  /\ 1 <= currentLesson after_first_lesson <= 7.
Proof.
  apply (reachable_lessons_fixed after_first_lesson).
  apply reach_completeLesson; [apply reach_initial | unfold TOTAL_LESSONS; lia].
Defined.

Lemma reachable_hundred_iff_completed_witness :
  overallProgress after_first_lesson = 100%float
  <-> all_completed after_first_lesson = true.
Proof.
  apply (reachable_hundred_iff_completed after_first_lesson).
  apply reach_completeLesson; [apply reach_initial | unfold TOTAL_LESSONS; lia].
Defined.

Lemma completeLesson_empty_store_witness :
  overallProgress (fst (completeLesson 1 None empty_course)) = nan
  /\ lessons (fst (completeLesson 1 None empty_course)) = []
  /\ snd (completeLesson 1 None empty_course) = [].
Proof. apply (completeLesson_empty_store empty_course 1 None). reflexivity. Defined.

Lemma completeLesson_other_size_never_reports_witness :
  reports (snd (completeLesson 8 None eight_lessons)) = 0%nat.
Proof.
  apply (completeLesson_other_size_never_reports eight_lessons 8 None).
  - simpl. lia.
  - reflexivity.
Defined.

(** With eight lessons the report fires while one is still incomplete. *)
Example eight_lessons_report_early :
  reports (snd (completeLesson 1 None eight_lessons)) = 1%nat
  /\ all_completed (fst (completeLesson 1 None eight_lessons)) = false.
Proof. split; vm_compute; reflexivity. Qed.

Lemma reachable_accessible_range_witness : 1 <= 8 <= 8.
Proof.
  apply (reachable_accessible_range completed_course 8).
  - unfold completed_course, after_first_lesson. cbn [fold_left].
    repeat (apply reach_completeLesson; [|unfold TOTAL_LESSONS; lia]).
    apply reach_initial.
  - vm_compute. reflexivity.
Defined.

Lemma snapshot_round_trip_witness :
  loadProgress parse_one (persist stringify_one after_first_lesson storage_with_garbage)
  = after_first_lesson
  /\ (forall key, key <> STORAGE_KEY ->
        persist stringify_one after_first_lesson storage_with_garbage !! key
        = storage_with_garbage !! key)
  /\ loadProgress parse_one
       (removeSnapshot (persist stringify_one after_first_lesson
                                storage_with_garbage))
     = initialProgress.
Proof.
  apply (snapshot_round_trip parse_one stringify_one after_first_lesson
           storage_with_garbage); reflexivity.
Defined.

End ProgressExtras.

(** * Further properties of the store wired to the wrapper *)

Module HookExtras.
Import Scorm Progress Samples MoreSamples.

(** On a store of seven lessons the updater's calls are the report and the
    log line when the course is complete, and none otherwise. *)
Lemma completeLesson_effects (p : CourseProgress) (k : Z) (score : option float) :
  length (lessons p) = 7%nat ->
  snd (completeLesson k score p)
  = if all_completed (fst (completeLesson k score p))
    then [ScormSetComplete; ConsoleLog completion_message] else [].
Proof.
  intros Hlen.
  pose proof (ProgressFacts.completeLesson_length k score p) as Hlen'.
  pose proof (ProgressFacts.completedCount_all
                (lessons (fst (completeLesson k score p)))) as Hall.
  rewrite Hlen', Hlen in Hall. unfold all_completed.
  cbn [completeLesson fst snd lessons] in *.
  destruct (forallb completed _).
  - rewrite (proj2 Hall eq_refl). reflexivity.
  - destruct (Z.eqb_spec (Z.of_nat (completedCount
                (map (fun l => if lessonId l =? k
                               then {| lessonId := lessonId l; completed := true;
                                       quizScore := score |}
                               else l) (lessons p)))) TOTAL_LESSONS) as [Heq|];
      [|reflexivity].
    unfold TOTAL_LESSONS in Heq.
    assert (true = true -> false = true) as Habs by (intros _; apply Hall; lia).
    discriminate (Habs eq_refl).
Qed.

(** X25.  When a [completeLesson] call completes the course of seven
    lessons and the wrapper is active, the runtime receives exactly the
    status write ["cmi.core.lesson_status" := "completed"] followed by a
    commit, the console gets the completion line, and the store's next
    state is the updater's. *)
Theorem completion_reaches_runtime {R : Type}
    (w : Page R) (a : ScormAPI R)
    (p : CourseProgress) (k : Z) (score : option float) :
  api w = Some a -> initialized w = true ->
  length (lessons p) = 7%nat ->
  all_completed (fst (completeLesson k score p)) = true ->
  fst (Hook.completeLesson k score p w) = fst (completeLesson k score p)
  /\ calls (snd (Hook.completeLesson k score p w))
     = calls w ++ [CallSetValue "cmi.core.lesson_status" "completed";
                   CallCommit ""]
  /\ console (snd (Hook.completeLesson k score p w))
     = console w ++ [completion_message].
Proof.
  intros Hapi Hinit Hlen Hall.
  pose proof (completeLesson_effects p k score Hlen) as Heff.
  rewrite Hall in Heff. unfold Hook.completeLesson.
  destruct (completeLesson k score p) as [next effects]. cbn [fst snd] in *.
  subst effects.
  unfold Hook.perform_all, Hook.perform, setComplete, setLessonStatus,
         setValue, commit, unless_inactive, request, console_print, bind, ret.
  cbn [status_text]. rewrite Hinit, Hapi. cbn.
  destruct (LMSSetValue a _ _ (lms w)) as [written r1]. cbn.
  rewrite ?Hinit, ?Hapi. cbn.
  destruct (LMSCommit a "" r1) as [committed r2]. cbn.
  rewrite <- app_assoc. repeat split.
Qed.

(** X26.  A [completeLesson] call on a store of seven lessons sends
    nothing to the runtime and leaves the wrapper as it is unless it
    completes the course on an active wrapper: while a lesson is still
    incomplete the page is untouched, and on an inactive wrapper completing
    the course only writes the console line. *)
Theorem completion_is_silent_otherwise {R : Type}
    (w : Page R) (p : CourseProgress) (k : Z) (score : option float) :
  length (lessons p) = 7%nat ->
  (all_completed (fst (completeLesson k score p)) = false ->
   Hook.completeLesson k score p w = (fst (completeLesson k score p), w))
  /\ (api w = None \/ initialized w = false ->
      calls (snd (Hook.completeLesson k score p w)) = calls w
      /\ lms (snd (Hook.completeLesson k score p w)) = lms w
      /\ initialized (snd (Hook.completeLesson k score p w)) = initialized w
      /\ api (snd (Hook.completeLesson k score p w)) = api w).
Proof.
  intros Hlen.
  pose proof (completeLesson_effects p k score Hlen) as Heff.
  unfold Hook.completeLesson.
  destruct (completeLesson k score p) as [next effects]. cbn [fst snd] in *.
  split.
  - intros Hall. rewrite Hall in Heff. subst effects. reflexivity.
  - intros Hinactive. subst effects.
    destruct (all_completed next); [|repeat split].
    unfold Hook.perform_all, bind.
    rewrite (HookFacts.report_standalone w Hinactive).
    unfold Hook.perform, console_print, ret. cbn. repeat split.
Qed.

Lemma completion_reaches_runtime_witness :
  fst (Hook.completeLesson 7 None before_last_lesson active_page)
  = fst (completeLesson 7 None before_last_lesson)
  /\ calls (snd (Hook.completeLesson 7 None before_last_lesson active_page))
     = calls active_page
       ++ [CallSetValue "cmi.core.lesson_status" "completed"; CallCommit ""]
  /\ console (snd (Hook.completeLesson 7 None before_last_lesson active_page))
     = console active_page ++ [completion_message].
Proof.
  apply (completion_reaches_runtime active_page friendly_api before_last_lesson
           7 None); reflexivity.
Defined.

Lemma completion_is_silent_otherwise_witness :
  (all_completed (fst (completeLesson 2 None after_first_lesson)) = false ->
   Hook.completeLesson 2 None after_first_lesson active_page
   = (fst (completeLesson 2 None after_first_lesson), active_page))
  /\ (api active_page = None \/ initialized active_page = false ->
      calls (snd (Hook.completeLesson 2 None after_first_lesson active_page))
      = calls active_page
      /\ lms (snd (Hook.completeLesson 2 None after_first_lesson active_page))
         = lms active_page
      /\ initialized (snd (Hook.completeLesson 2 None after_first_lesson active_page))
         = initialized active_page
      /\ api (snd (Hook.completeLesson 2 None after_first_lesson active_page))
         = api active_page).
Proof.
  apply (completion_is_silent_otherwise active_page after_first_lesson 2 None).
  reflexivity.
Defined.

End HookExtras.
